(** * Pilcrow: format negotiation, response encoders and the WebSocket event
    protocol, embedded in Rocq.

    Sources: src/src/extract.rs, src/src/select.rs, src/src/response.rs,
    src/src/ws.rs, src/src/headers.rs, src/src/sse.rs, src/src/macros.rs. *)

From Stdlib Require Import String Ascii List ZArith NArith Bool Lia.
From Stdlib Require DecimalPos PrimFloat SpecFloat FloatOps.
Import ListNotations.
Open Scope string_scope.
Set Warnings "-register-all".

(* ================================================================= *)
(** ** Byte-string helpers *)

(** [str::contains] on byte strings: substring search. *)
Fixpoint starts_with (p s : string) : bool :=
  match p, s with
  | EmptyString, _ => true
  | String c p', String d s' => Ascii.eqb c d && starts_with p' s'
  | String _ _, EmptyString => false
  end.

Fixpoint contains (s p : string) : bool :=
  starts_with p s ||
  match s with
  | EmptyString => false
  | String _ s' => contains s' p
  end.

(** [HeaderValue::to_str]: succeeds iff every byte is visible ASCII or a tab. *)
Definition is_visible_ascii (c : ascii) : bool :=
  let n := nat_of_ascii c in
  ((32 <=? n) && (n <? 127) || (n =? 9))%nat.

Fixpoint all_chars (f : ascii -> bool) (s : string) : bool :=
  match s with
  | EmptyString => true
  | String c s' => f c && all_chars f s'
  end.

Definition header_to_str (v : string) : option string :=
  if all_chars is_visible_ascii v then Some v else None.

(* ================================================================= *)
(** ** extract.rs: the request signal and the mode resolver *)

Inductive RequestMode := Html | Json.

Record SilcrowRequest := mkSilcrowRequest {
  is_silcrow : bool;
  accepts_html : bool;
  accepts_json : bool
}.

(** Request headers as axum's [HeaderMap] holds them: lower-cased names, in
    insertion order; [get] returns the first value of a name. *)
Definition HeaderMap := list (string * string).

Fixpoint header_get (name : string) (h : HeaderMap) : option string :=
  match h with
  | [] => None
  | (k, v) :: h' => if String.eqb k name then Some v else header_get name h'
  end.

Definition header_contains_key (name : string) (h : HeaderMap) : bool :=
  match header_get name h with Some _ => true | None => false end.

(** [SilcrowRequest::from_request_parts] (extract.rs 35-54); the extractor
    never rejects, so the result is the request itself. *)
Definition from_request_parts (headers : HeaderMap) : SilcrowRequest :=
  let is_silcrow := header_contains_key "silcrow-target" headers in
  let accept :=
    match option_map header_to_str (header_get "accept" headers) with
    | Some (Some a) => a
    | _ => ""
    end in
  let accepts_html := contains accept "text/html" in
  let accepts_json := contains accept "application/json" in
  {| is_silcrow := is_silcrow; accepts_html := accepts_html;
     accepts_json := accepts_json |}.

(** [SilcrowRequest::preferred_mode] (extract.rs 62-80). *)
Definition preferred_mode (r : SilcrowRequest) : RequestMode :=
  let fallback :=
    (* standard browser hard-refresh, then the API-client fallback *)
    if accepts_html r then Html else Json in
  if is_silcrow r then
    if accepts_html r then Html
    else if accepts_json r then Json
    else fallback
  else fallback.

Definition mode_of_headers (h : HeaderMap) : RequestMode :=
  preferred_mode (from_request_parts h).

Definition accept_hdr (a : string) : HeaderMap := [("accept", a)].

(* ================================================================= *)
(** ** The outbound response *)

(** An axum [Response] as the encoders build it: a status code, the header
    list in emission order (names lower-case, as [HeaderName] stores them)
    and the body bytes. *)
Record Response := mkResponse {
  status : N;
  resp_headers : list (string * string);
  body : string
}.

(** [HeaderMap::insert]: drops every value of [name], then stores [v]. *)
Definition hm_insert (name v : string) (h : list (string * string))
  : list (string * string) :=
  (filter (fun kv => negb (String.eqb (fst kv) name)) h ++ [(name, v)])%list.

(** [HeaderMap::append]: keeps the existing values of [name]. *)
Definition hm_append (name v : string) (h : list (string * string))
  : list (string * string) :=
  (h ++ [(name, v)])%list.

Definition set_header (name v : string) (r : Response) : Response :=
  {| status := status r; resp_headers := hm_insert name v (resp_headers r);
     body := body r |}.

Definition append_header (name v : string) (r : Response) : Response :=
  {| status := status r; resp_headers := hm_append name v (resp_headers r);
     body := body r |}.

(** [(StatusCode, &'static str).into_response()]. *)
Definition status_text_response (code : N) (msg : string) : Response :=
  {| status := code;
     resp_headers := [("content-type", "text/plain; charset=utf-8")];
     body := msg |}.

(** [StatusCode::INTERNAL_SERVER_ERROR.into_response()]: empty body. *)
Definition internal_server_error : Response :=
  {| status := 500; resp_headers := []; body := "" |}.

(* ================================================================= *)
(** ** select.rs: the dual-mode selector *)

(** Rust's [Result]. *)
Inductive result (A E : Type) : Type :=
| Ok (a : A)
| Err (e : E).
Arguments Ok {A E} a.
Arguments Err {A E} e.

Section Selector.
(** [S] is the world a producer may observe and change (its logging,
    counters, database...); [E] is the application's error type. *)
Variable S E : Type.

(** [AsyncResponseFn<E>]: a boxed [FnOnce] that, once called and awaited,
    yields [Result<Response, E>]. Calling it is running it on the world. *)
Definition AsyncResponseFn : Type := S -> result Response E * S.

Record Responses := mkResponses {
  html_fn : option AsyncResponseFn;
  json_fn : option AsyncResponseFn
}.

Definition responses_new : Responses := mkResponses None None.

Definition responses_html (f : AsyncResponseFn) (r : Responses) : Responses :=
  mkResponses (Some f) (json_fn r).

Definition responses_json (f : AsyncResponseFn) (r : Responses) : Responses :=
  mkResponses (html_fn r) (Some f).

(** [SilcrowRequest::select] (select.rs 122-139). *)
Definition select (req : SilcrowRequest) (responses : Responses)
  : AsyncResponseFn :=
  fun w =>
    match preferred_mode req with
    | Html =>
        match html_fn responses with
        | Some f => f w
        | None => (Ok (status_text_response 406 "HTML not provided"), w)
        end
    | Json =>
        match json_fn responses with
        | Some f => f w
        | None => (Ok (status_text_response 406 "JSON not provided"), w)
        end
    end.
End Selector.

Arguments responses_new {S E}.
Arguments responses_html {S E} f r.
Arguments responses_json {S E} f r.
Arguments mkResponses {S E} html_fn json_fn.
Arguments select {S E} req responses w.

(** The instrumentation of the selector test (select.rs 146-181): each
    producer bumps its own call counter before doing its work. The world is
    (html calls, json calls, rest of the world). *)
Definition counted_html {W E} (f : AsyncResponseFn W E)
  : AsyncResponseFn (nat * nat * W) E :=
  fun '(h, j, w) => let '(r, w') := f w in (r, (Datatypes.S h, j, w')).

Definition counted_json {W E} (f : AsyncResponseFn W E)
  : AsyncResponseFn (nat * nat * W) E :=
  fun '(h, j, w) => let '(r, w') := f w in (r, (h, Datatypes.S j, w')).

(* ================================================================= *)
(** ** serde_json: values, maps and compact text *)

(** Rust's [f64]: the kernel's primitive binary64 floats, whose operations
    round to nearest, ties to even, as IEEE 754 does. *)
Definition f64 : Set := PrimFloat.float.

(** The [f64] nearest to [m * 2^e] (ties to even); [0] for [m = 0]. *)
Definition f64_of_bits (m e : Z) : f64 :=
  FloatOps.SF2Prim (SpecFloat.binary_normalize 53 1024 m e false).

(** [serde_json::Value]. A [Number] is an integer ([u64] or [i64], both
    kept as [VNum]) or a finite [f64] ([VFloat]). [Object] is serde_json's
    default [Map], a [BTreeMap]: keys unique and in byte order. *)
Inductive Value :=
| VNull
| VBool (b : bool)
| VNum (z : Z)
| VFloat (f : f64)
| VStr (s : string)
| VArr (l : list Value)
| VObj (m : list (string * Value)).

(** Byte-wise order on strings ([Ord for str]). *)
Fixpoint str_ltb (a b : string) : bool :=
  match a, b with
  | EmptyString, EmptyString => false
  | EmptyString, String _ _ => true
  | String _ _, EmptyString => false
  | String c a', String d b' =>
      if (N_of_ascii c <? N_of_ascii d)%N then true
      else if Ascii.eqb c d then str_ltb a' b' else false
  end.

(** [Map::insert] on the [BTreeMap]: replaces the value of an existing key,
    otherwise puts the key at its place in the order. *)
Fixpoint map_insert (k : string) (v : Value) (m : list (string * Value))
  : list (string * Value) :=
  match m with
  | [] => [(k, v)]
  | (k', v') :: m' =>
      if String.eqb k k' then (k, v) :: m'
      else if str_ltb k k' then (k, v) :: m
      else (k', v') :: map_insert k v m'
  end.

Fixpoint map_get (k : string) (m : list (string * Value)) : option Value :=
  match m with
  | [] => None
  | (k', v) :: m' => if String.eqb k k' then Some v else map_get k m'
  end.

Definition dq : ascii := "034"%char.
Definition bs : ascii := "\"%char.

Definition hex_lower (n : N) : ascii :=
  if (n <? 10)%N then ascii_of_N (48 + n) else ascii_of_N (87 + n).

Definition hex_upper (n : N) : ascii :=
  if (n <? 10)%N then ascii_of_N (48 + n) else ascii_of_N (55 + n).

(** serde_json's string escaping ([format_escaped_str]): quote and
    backslash are escaped, control bytes use the short forms where JSON has
    one and [\u00XX] (lower-case hex) otherwise; every other byte is copied. *)
Definition escape_char (c : ascii) : string :=
  let n := N_of_ascii c in
  if Ascii.eqb c dq then String bs (String dq EmptyString)
  else if Ascii.eqb c bs then String bs (String bs EmptyString)
  else if (n <? 32)%N then
    if (n =? 8)%N then String bs "b"
    else if (n =? 9)%N then String bs "t"
    else if (n =? 10)%N then String bs "n"
    else if (n =? 12)%N then String bs "f"
    else if (n =? 13)%N then String bs "r"
    else String bs ("u00" ++ String (hex_lower (n / 16)) (String (hex_lower (n mod 16)) EmptyString))
  else String c EmptyString.

Fixpoint escape (s : string) : string :=
  match s with
  | EmptyString => EmptyString
  | String c s' => escape_char c ++ escape s'
  end.

Definition quote (s : string) : string :=
  String dq (escape s ++ String dq EmptyString).

Definition digit_char (d : nat) : ascii := ascii_of_nat (48 + d).

Fixpoint uint_to_string (d : Decimal.uint) : string :=
  match d with
  | Decimal.Nil => EmptyString
  | Decimal.D0 d' => String "0" (uint_to_string d')
  | Decimal.D1 d' => String "1" (uint_to_string d')
  | Decimal.D2 d' => String "2" (uint_to_string d')
  | Decimal.D3 d' => String "3" (uint_to_string d')
  | Decimal.D4 d' => String "4" (uint_to_string d')
  | Decimal.D5 d' => String "5" (uint_to_string d')
  | Decimal.D6 d' => String "6" (uint_to_string d')
  | Decimal.D7 d' => String "7" (uint_to_string d')
  | Decimal.D8 d' => String "8" (uint_to_string d')
  | Decimal.D9 d' => String "9" (uint_to_string d')
  end.

(** Integers are written in decimal ([itoa]). *)
Definition print_Z (z : Z) : string :=
  match Z.to_int z with
  | Decimal.Pos d => uint_to_string d
  | Decimal.Neg d => String "-" (uint_to_string d)
  end.

Fixpoint join (sep : string) (l : list string) : string :=
  match l with
  | [] => EmptyString
  | [x] => x
  | x :: l' => x ++ sep ++ join sep l'
  end.

Section Ryu.
Local Open Scope Z_scope.

(** ryu, which serde_json uses to write an [f64]: the shortest decimal
    [d * 10^k] that reads back as the same [f64] (it lies in the rounding
    interval of the float, bounds included iff the mantissa is even) and,
    among the shortest, the closest to the exact value (ties to an even [d]).
    Here the exact values [a * 2^p * 10^q] are compared as integers. *)
Definition dyadic_cmp (a1 p1 q1 a2 p2 q2 : Z) : comparison :=
  let k := Z.max 0 (- Z.min p1 p2) in
  let j := Z.max 0 (- Z.min q1 q2) in
  Z.compare (a1 * 2 ^ (p1 + k) * 10 ^ (q1 + j)) (a2 * 2 ^ (p2 + k) * 10 ^ (q2 + j)).

(** [floor (a * 2^p * 10^q)]. *)
Definition floor_dyadic (a p q : Z) : Z :=
  (a * 2 ^ Z.max 0 p * 10 ^ Z.max 0 q) / (2 ^ Z.max 0 (- p) * 10 ^ Z.max 0 (- q)).

(** Number of decimal digits of a positive integer. *)
Definition digits10 (z : Z) : Z :=
  match z with Zpos p => Z.of_nat (Decimal.nb_digits (Pos.to_uint p)) | _ => 0 end.

(** The shortest digits [(d, k)] of the positive float [m * 2^e] (its
    mantissa and exponent as IEEE 754 stores them): for [len] = 1, 2, ...
    the two [len]-digit neighbours of the exact value are tried; 17 digits
    always suffice. *)
Definition ryu_shortest (m e : Z) : Z * Z :=
  let mp := 4 * m + 2 in
  let mm := if (m =? 2 ^ 52) && (-1074 <? e) then 4 * m - 1 else 4 * m - 2 in
  let accept_bounds := Z.even m in
  let within (c : comparison) :=
    match c with Lt => true | Eq => accept_bounds | Gt => false end in
  let inside (d k : Z) :=
    within (dyadic_cmp mm (e - 2) 0 d 0 k) && within (dyadic_cmp d 0 k mp (e - 2) 0) in
  let e10 := digits10 (floor_dyadic m e 400) - 1 - 400 in
  let fix search (fuel : nat) (len : Z) : Z * Z :=
    let k := e10 - len + 1 in
    let d := floor_dyadic m e (- k) in
    match fuel with
    | O => (d, k)
    | Datatypes.S fuel' =>
        let in_d := inside d k in
        let in_u := inside (d + 1) k in
        if in_d && in_u then
          match dyadic_cmp (2 * m) e 0 (2 * d + 1) 0 k with
          | Lt => (d, k)
          | Gt => (d + 1, k)
          | Eq => if Z.even d then (d, k) else (d + 1, k)
          end
        else if in_d then (d, k)
        else if in_u then (d + 1, k)
        else search fuel' (len + 1)
    end in
  search 17%nat 1.

(** The digits without their trailing zeros. *)
Fixpoint strip_zeros (fuel : nat) (d k : Z) : Z * Z :=
  match fuel with
  | O => (d, k)
  | Datatypes.S f => if (0 <? d) && (d mod 10 =? 0) then strip_zeros f (d / 10) (k + 1) else (d, k)
  end.

Fixpoint zeros (n : nat) : string :=
  match n with O => EmptyString | Datatypes.S n' => String "0" (zeros n') end.

(** [ryu::pretty::format64] once the digits are known. *)
Definition ryu_format (d k : Z) : string :=
  let ds := print_Z d in
  let length := Z.of_nat (String.length ds) in
  let kk := length + k in
  if (0 <=? k) && (kk <=? 16) then ds ++ zeros (Z.to_nat k) ++ ".0"
  else if (0 <? kk) && (kk <=? 16) then
    substring 0 (Z.to_nat kk) ds ++ "." ++ substring (Z.to_nat kk) (Z.to_nat (length - kk)) ds
  else if (-5 <? kk) && (kk <=? 0) then "0." ++ zeros (Z.to_nat (- kk)) ++ ds
  else if length =? 1 then ds ++ "e" ++ print_Z (kk - 1)
  else substring 0 1 ds ++ "." ++ substring 1 (Z.to_nat (length - 1)) ds ++ "e" ++ print_Z (kk - 1).

(** [Serializer::serialize_f64]: [null] for NaN and the infinities, ryu's
    text otherwise. *)
Definition format_f64 (x : f64) : string :=
  match FloatOps.Prim2SF x with
  | SpecFloat.S754_zero s => (if s then "-" else "") ++ "0.0"
  | SpecFloat.S754_finite s m e =>
      let '(d, k) := ryu_shortest (Zpos m) e in
      let '(d, k) := strip_zeros 20 d k in
      (if s then "-" else "") ++ ryu_format d k
  | SpecFloat.S754_infinity _ | SpecFloat.S754_nan => "null"
  end.

End Ryu.

(** [serde_json::to_string] of a value (compact formatter). *)
Fixpoint to_string (v : Value) : string :=
  match v with
  | VNull => "null"
  | VBool true => "true"
  | VBool false => "false"
  | VNum z => print_Z z
  | VFloat x => format_f64 x
  | VStr s => quote s
  | VArr l => "[" ++ join "," (map to_string l) ++ "]"
  | VObj m =>
      "{" ++ join "," (map (fun kv => quote (fst kv) ++ ":" ++ to_string (snd kv)) m)
      ++ "}"
  end.

(** Rust data handed to [serde_json::to_value] through its [Serialize]
    impl: unit, booleans, integers, [f64]s, strings, sequences, structs
    (field name and value, in declaration order), an already-built [Value],
    and a value whose [Serialize] impl reports an error. *)
Inductive RData :=
| RUnit
| RBool (b : bool)
| RInt (z : Z)
| RFloat (x : f64)
| RString (s : string)
| RSeq (l : list RData)
| RStruct (fields : list (string * RData))
| RValue (v : Value)
| RFail.

(** [serde_json::to_value]: the first error aborts the whole conversion;
    struct fields are inserted one by one into the [Map]; an [f64] becomes
    [Number::from_f64], [Null] when it is NaN or infinite. *)
Fixpoint to_value (d : RData) : option Value :=
  match d with
  | RUnit => Some VNull
  | RBool b => Some (VBool b)
  | RInt z => Some (VNum z)
  | RFloat x => Some (if PrimFloat.is_finite x then VFloat x else VNull)
  | RString s => Some (VStr s)
  | RSeq l =>
      let fix seq_values (l : list RData) : option (list Value) :=
        match l with
        | [] => Some []
        | x :: l' =>
            match to_value x with
            | None => None
            | Some v => option_map (cons v) (seq_values l')
            end
        end in
      option_map VArr (seq_values l)
  | RStruct fs =>
      let fix fields_map (fs : list (string * RData)) (m : list (string * Value))
        : option (list (string * Value)) :=
        match fs with
        | [] => Some m
        | (k, x) :: fs' =>
            match to_value x with
            | None => None
            | Some v => fields_map fs' (map_insert k v m)
            end
        end in
      option_map VObj (fields_map fs [])
  | RValue v => Some v
  | RFail => None
  end.

(* ================================================================= *)
(** ** response.rs: toasts, cookies and the directive accumulator *)

Record Toast := mkToast { message : string; level : string }.

(** [json!(toasts)]: each toast becomes a [Map] built by inserting
    [message] then [level]. *)
Definition toast_value (t : Toast) : Value :=
  VObj (map_insert "level" (VStr (level t)) (map_insert "message" (VStr (message t)) [])).

Definition toasts_value (ts : list Toast) : Value := VArr (map toast_value ts).

(** [serde_json::to_string(&toasts)]: the derived [Serialize] writes the
    fields in declaration order. *)
Definition toast_to_string (t : Toast) : string :=
  "{" ++ quote "message" ++ ":" ++ quote (message t) ++ ","
      ++ quote "level" ++ ":" ++ quote (level t) ++ "}".

Definition toasts_to_string (ts : list Toast) : string :=
  "[" ++ join "," (map toast_to_string ts) ++ "]".

(** [urlencoding::encode]: ASCII letters, digits and [-._~] are kept,
    every other byte becomes [%XX] (upper-case hex). *)
Definition url_unreserved (c : ascii) : bool :=
  let n := N_of_ascii c in
  ((48 <=? n) && (n <=? 57) || (65 <=? n) && (n <=? 90) || (97 <=? n) && (n <=? 122)
   || (n =? 45) || (n =? 46) || (n =? 95) || (n =? 126))%N.

Fixpoint urlencode (s : string) : string :=
  match s with
  | EmptyString => EmptyString
  | String c s' =>
      let n := N_of_ascii c in
      (if url_unreserved c then String c EmptyString
       else String "%" (String (hex_upper (n / 16)) (String (hex_upper (n mod 16)) EmptyString)))
      ++ urlencode s'
  end.

Inductive SameSite := Strict | Lax | SameSiteNone.

Definition same_site_to_string (s : SameSite) : string :=
  match s with Strict => "Strict" | Lax => "Lax" | SameSiteNone => "None" end.

(** [cookie::Cookie] with the attributes this crate can set. *)
Record Cookie := mkCookie {
  c_name : string;
  c_value : string;
  c_http_only : option bool;
  c_same_site : option SameSite;
  c_secure : option bool;
  c_path : option string;
  c_domain : option string;
  c_max_age : option Z
}.

(** [Display for Cookie]: [name=value] then the attributes in the crate's
    fixed order. *)
Definition cookie_to_string (c : Cookie) : string :=
  c_name c ++ "=" ++ c_value c
  ++ (match c_http_only c with Some true => "; HttpOnly" | _ => "" end)
  ++ (match c_same_site c with
      | Some s =>
          "; SameSite=" ++ same_site_to_string s
          ++ (match s, c_secure c with SameSiteNone, None => "; Secure" | _, _ => "" end)
      | None => ""
      end)
  ++ (match c_secure c with Some true => "; Secure" | _ => "" end)
  ++ (match c_path c with Some p => "; Path=" ++ p | None => "" end)
  ++ (match c_domain c with Some d => "; Domain=" ++ d | None => "" end)
  ++ (match c_max_age c with Some a => "; Max-Age=" ++ print_Z a | None => "" end).

(** [HeaderValue::from_str]: every byte is a tab or at least 32 and not DEL. *)
Definition header_byte_ok (c : ascii) : bool :=
  let n := N_of_ascii c in
  ((32 <=? n) && negb (n =? 127) || (n =? 9))%N.

Definition header_value_ok (v : string) : bool := all_chars header_byte_ok v.

Record BaseResponse := mkBase {
  b_headers : list (string * string);
  b_cookies : list Cookie;
  b_toasts : list Toast
}.

Definition base_default : BaseResponse := mkBase [] [] [].

(** [BaseResponse::apply_to_response] (response.rs 29-41). *)
Definition apply_to_response (base : BaseResponse) (r : Response) : Response :=
  let r1 := fold_left (fun r kv => set_header (fst kv) (snd kv) r) (b_headers base) r in
  fold_left
    (fun r c =>
       let s := cookie_to_string c in
       if header_value_ok s then append_header "set-cookie" s r else r)
    (b_cookies base) r1.

Definition toast_cookie (ts : list Toast) : Cookie :=
  {| c_name := "silcrow_toasts"; c_value := urlencode (toasts_to_string ts);
     c_http_only := None; c_same_site := Some Lax; c_secure := None;
     c_path := Some "/"; c_domain := None; c_max_age := Some 5%Z |}.

(** [BaseResponse::apply_toast_cookies] (response.rs 45-62). Serializing a
    [Vec<Toast>] of strings cannot fail, so only the header check remains. *)
Definition apply_toast_cookies (base : BaseResponse) (r : Response) : Response :=
  match b_toasts base with
  | [] => r
  | ts =>
      let s := cookie_to_string (toast_cookie ts) in
      if header_value_ok s then append_header "set-cookie" s r else r
  end.

(** [HEADER_CHARS] of the http crate: the token characters of RFC 7230
    ([!#$%&'*+-.^_`|~], digits and letters) with upper-case letters mapped to
    lower case; every other byte maps to 0. *)
Definition header_char (c : ascii) : ascii :=
  let n := N_of_ascii c in
  if ((65 <=? n) && (n <=? 90))%N then ascii_of_N (n + 32)
  else if ((97 <=? n) && (n <=? 122) || (48 <=? n) && (n <=? 57))%N
          || existsb (Ascii.eqb c) (list_ascii_of_string "!#$%&'*+-.^_`|~") then c
  else ascii_of_N 0.

Fixpoint map_chars (f : ascii -> ascii) (s : string) : string :=
  match s with
  | EmptyString => EmptyString
  | String c s' => String (f c) (map_chars f s')
  end.

(** The name [HeaderMap::insert] stores for an [&'static str] key
    ([HdrName::from_static], that is [parse_hdr] with [HEADER_CHARS]), or
    [None] where it panics ("static str is invalid name"): an empty key, a key
    of at most 64 bytes with a byte outside the token characters, or a key
    longer than [MAX_HEADER_NAME_LEN] ([2^16 - 1]). Keys of 65 bytes and
    more are mapped through [HEADER_CHARS] without a check. *)
Definition header_name_from_static (key : string) : option string :=
  let len := String.length key in
  let name := map_chars header_char key in
  if (len =? 0)%nat then None
  else if (len <=? 64)%nat then
    if all_chars (fun c => negb (Ascii.eqb c (ascii_of_N 0))) name then Some name else None
  else if (N.of_nat len <=? 65535)%N then Some name
  else None.

(** [if let Ok(val) = HeaderValue::from_str(value) { headers.insert(name,
    val) }] for a name already in its stored form. *)
Definition base_insert (name value : string) (b : BaseResponse) : BaseResponse :=
  if header_value_ok value
  then mkBase (hm_insert name value (b_headers b)) (b_cookies b) (b_toasts b)
  else b.

(** [ResponseExt::with_header]: an invalid value leaves the response as it
    is; otherwise the key goes through [HdrName::from_static], [None] when
    that panics. *)
Definition with_header (key value : string) (b : BaseResponse) : option BaseResponse :=
  if header_value_ok value then
    match header_name_from_static key with
    | Some name => Some (mkBase (hm_insert name value (b_headers b)) (b_cookies b) (b_toasts b))
    | None => None
    end
  else Some b.

(** [ResponseExt::with_toast]. *)
Definition with_toast (msg lvl : string) (b : BaseResponse) : BaseResponse :=
  mkBase (b_headers b) (b_cookies b) (b_toasts b ++ [mkToast msg lvl])%list.

(* ================================================================= *)
(** ** response.rs: the three encoders *)

Record HtmlResponse := mkHtml { h_data : string; h_base : BaseResponse }.
Record JsonResponse := mkJson { j_data : RData; j_base : BaseResponse }.
Record NavigateResponse := mkNavigate { n_path : string; n_base : BaseResponse }.

Definition html (data : string) : HtmlResponse := mkHtml data base_default.
Definition json (data : RData) : JsonResponse := mkJson data base_default.
Definition navigate (path : string) : NavigateResponse := mkNavigate path base_default.

(** [HtmlResponse::into_response] (response.rs 170-177). *)
Definition html_into_response (h : HtmlResponse) : Response :=
  let response :=
    {| status := 200; resp_headers := [("content-type", "text/html; charset=utf-8")];
       body := h_data h |} in
  apply_toast_cookies (h_base h) (apply_to_response (h_base h) response).

(** The payload of [JsonResponse::into_response] after the toast step
    (response.rs 194-208). *)
Definition attach_toasts (toasts : list Toast) (json_payload : Value) : Value :=
  match toasts with
  | [] => json_payload
  | _ =>
      let toasts_json := toasts_value toasts in
      match json_payload with
      | VObj m => VObj (map_insert "_toasts" toasts_json m)
      | _ => VObj (map_insert "_toasts" toasts_json (map_insert "data" json_payload []))
      end
  end.

(** [JsonResponse::into_response] (response.rs 185-213). *)
Definition json_into_response (j : JsonResponse) : Response :=
  match to_value (j_data j) with
  | None => internal_server_error
  | Some v =>
      let json_payload := attach_toasts (b_toasts (j_base j)) v in
      let response :=
        {| status := 200; resp_headers := [("content-type", "application/json")];
           body := to_string json_payload |} in
      apply_to_response (j_base j) response
  end.

(** [NavigateResponse::into_response] (response.rs 223-235). [Redirect::to]
    panics when the path is not a valid header value: [None]. *)
Definition navigate_into_response (n : NavigateResponse) : option Response :=
  if header_value_ok (n_path n) then
    let response :=
      {| status := 303; resp_headers := [("location", n_path n)]; body := "" |} in
    let response := {| status := 303; resp_headers := resp_headers response;
                       body := body response |} in
    Some (apply_toast_cookies (n_base n) (apply_to_response (n_base n) response))
  else None.

(* ================================================================= *)
(** ** serde_json: reading JSON text ([serde_json::from_str])

    [parse_value] follows serde_json's [Deserializer]: whitespace is space,
    tab, newline and carriage return; [remaining_depth] starts at 128 and
    entering an array or object first decrements it and fails when it
    reaches 0 ([check_recursion!]). Objects keep every member in text order
    (duplicates included), as a visitor sees them; [value_of_content] then
    builds the [Value] a [Value] visitor would. Number literals follow
    serde_json's own grammar and float conversion ([parse_number] below).
    [fuel] only bounds the recursion; [from_str] gives one unit per input
    byte. *)

Inductive DeError :=
| EofWhileParsing
| SyntaxError
| RecursionLimitExceeded
| TrailingCharacters
| InvalidType
| UnknownVariant (s : string)
| MissingField (f : string)
| DuplicateField (f : string)
| InvalidLength.

Definition is_ws (c : ascii) : bool :=
  let n := N_of_ascii c in ((n =? 32) || (n =? 9) || (n =? 10) || (n =? 13))%N.

Fixpoint skip_ws (s : string) : string :=
  match s with
  | String c s' => if is_ws c then skip_ws s' else s
  | EmptyString => EmptyString
  end.

Definition hex_val (c : ascii) : option N :=
  let n := N_of_ascii c in
  if ((48 <=? n) && (n <=? 57))%N then Some (n - 48)%N
  else if ((97 <=? n) && (n <=? 102))%N then Some (n - 87)%N
  else if ((65 <=? n) && (n <=? 70))%N then Some (n - 55)%N
  else None.

Definition hex4 (a b c d : ascii) : option N :=
  match hex_val a, hex_val b, hex_val c, hex_val d with
  | Some x, Some y, Some z, Some w => Some (((x * 16 + y) * 16 + z) * 16 + w)%N
  | _, _, _, _ => None
  end.

(** UTF-8 encoding of a code point. *)
Definition utf8 (cp : N) : string :=
  let b := fun n => String (ascii_of_N n) EmptyString in
  if (cp <? 128)%N then b cp
  else if (cp <? 2048)%N then b (192 + cp / 64)%N ++ b (128 + cp mod 64)%N
  else if (cp <? 65536)%N then
    b (224 + cp / 4096)%N ++ b (128 + (cp / 64) mod 64)%N ++ b (128 + cp mod 64)%N
  else b (240 + cp / 262144)%N ++ b (128 + (cp / 4096) mod 64)%N
       ++ b (128 + (cp / 64) mod 64)%N ++ b (128 + cp mod 64)%N.

Definition prepend (x : string) (o : option (string * string))
  : option (string * string) :=
  match o with Some (a, r) => Some (x ++ a, r) | None => None end.

(** The two-byte escapes: backslash followed by a quote, a backslash, a
    slash, or one of the letters b, f, n, r, t. *)
Definition short_escape (e : ascii) : option ascii :=
  let n := N_of_ascii e in
  if Ascii.eqb e dq then Some dq
  else if Ascii.eqb e bs then Some bs
  else if (n =? 47)%N then Some "/"%char
  else if (n =? 98)%N then Some (ascii_of_N 8)
  else if (n =? 102)%N then Some (ascii_of_N 12)
  else if (n =? 110)%N then Some (ascii_of_N 10)
  else if (n =? 114)%N then Some (ascii_of_N 13)
  else if (n =? 116)%N then Some (ascii_of_N 9)
  else None.

(** [parse_str]: the body of a string literal after its opening quote;
    returns the decoded bytes and the text after the closing quote. A raw
    control byte, an unknown escape or a lone surrogate is an error. *)
Fixpoint parse_str (s : string) : option (string * string) :=
  match s with
  | EmptyString => None
  | String c s' =>
      if Ascii.eqb c dq then Some (EmptyString, s')
      else if Ascii.eqb c bs then
        match s' with
        | EmptyString => None
        | String e s'' =>
            match short_escape e with
            | Some x => prepend (String x EmptyString) (parse_str s'')
            | None =>
                if Ascii.eqb e "u"%char then
                  match s'' with
                  | String h1 (String h2 (String h3 (String h4 r))) =>
                      match hex4 h1 h2 h3 h4 with
                      | None => None
                      | Some cp =>
                          if ((55296 <=? cp) && (cp <? 56320))%N then
                            match r with
                            | String b1 (String u1 (String l1 (String l2 (String l3 (String l4 r'))))) =>
                                if Ascii.eqb b1 bs && Ascii.eqb u1 "u"%char then
                                  match hex4 l1 l2 l3 l4 with
                                  | Some lo =>
                                      if ((56320 <=? lo) && (lo <? 57344))%N then
                                        prepend
                                          (utf8 (65536 + (cp - 55296) * 1024 + (lo - 56320)))
                                          (parse_str r')
                                      else None
                                  | None => None
                                  end
                                else None
                            | _ => None
                            end
                          else if ((56320 <=? cp) && (cp <? 57344))%N then None
                          else prepend (utf8 cp) (parse_str r)
                      end
                  | _ => None
                  end
                else None
            end
        end
      else if (N_of_ascii c <? 32)%N then None
      else prepend (String c EmptyString) (parse_str s')
  end.

Definition is_digit (c : ascii) : bool :=
  let n := N_of_ascii c in ((48 <=? n) && (n <=? 57))%N.

(** The number grammar of serde_json's [Deserializer], default features
    (no [arbitrary_precision], no [float_roundtrip]): [parse_integer],
    [parse_number], [parse_decimal], [parse_exponent], [parse_long_integer]
    and the overflow paths, with [f64_from_parts] of the default build.
    Each function takes the text still to read and returns the rest. *)
Section Numbers.
Local Open Scope Z_scope.

Definition digit_val (c : ascii) : Z := Z.of_N (N_of_ascii c) - 48.

Definition is_dot (c : ascii) : bool := (N_of_ascii c =? 46)%N.

Definition is_exp_mark (c : ascii) : bool :=
  let n := N_of_ascii c in ((n =? 101) || (n =? 69))%N.

Definition u64_max : Z := 18446744073709551615.
Definition i32_max : Z := 2147483647.

(** [overflow!(a * 10 + b, max)]. *)
Definition overflow (a b max : Z) : bool :=
  (max / 10 <=? a) && ((max / 10 <? a) || (max mod 10 <? b)).

(** [i32::saturating_add] and [saturating_sub]. *)
Definition saturate_i32 (z : Z) : Z := Z.max (-2147483648) (Z.min i32_max z).

(** [significand as f64]: nearest, ties to even. *)
Definition u64_as_f64 (u : Z) : f64 := f64_of_bits u 0.

(** [POW10[k]]: the literal [1e{k}], the [f64] nearest to [10^k]. *)
Definition POW10 (k : Z) : f64 := f64_of_bits (10 ^ k) 0.

(** The loop of [f64_from_parts] (without [float_roundtrip]): one
    multiplication or division by [POW10[|exponent|]] when that entry exists
    (an infinite product is a [NumberOutOfRange] error, [None]); otherwise a
    division by [1e308] and again, stopping at zero. A significand below
    [2^64] is zero after two divisions by [1e308], so three rounds are
    enough. *)
Fixpoint f64_scale (fuel : nat) (f : f64) (exponent : Z) : option f64 :=
  match fuel with
  | O => Some f
  | Datatypes.S fuel' =>
      if Z.abs exponent <=? 308 then
        if 0 <=? exponent then
          let f' := PrimFloat.mul f (POW10 exponent) in
          if PrimFloat.is_infinity f' then None else Some f'
        else Some (PrimFloat.div f (POW10 (- exponent)))
      else if PrimFloat.eqb f (u64_as_f64 0) then Some f
      else if 0 <=? exponent then None
      else f64_scale fuel' (PrimFloat.div f (POW10 308)) (exponent + 308)
  end.

Definition f64_from_parts (positive : bool) (significand exponent : Z) : option f64 :=
  match f64_scale 3 (u64_as_f64 significand) exponent with
  | Some f => Some (if positive then f else PrimFloat.opp f)
  | None => None
  end.

Fixpoint skip_digits (s : string) : string :=
  match s with
  | String c r => if is_digit c then skip_digits r else s
  | EmptyString => EmptyString
  end.

Definition with_rest (s : string) (o : option f64) : option (f64 * string) :=
  match o with Some f => Some (f, s) | None => None end.

(** [parse_exponent_overflow]: an error for a nonzero significand and a
    positive exponent, otherwise a signed zero. *)
Definition parse_exponent_overflow (positive zero_significand positive_exp : bool)
  (s : string) : option (f64 * string) :=
  if negb zero_significand && positive_exp then None
  else Some (if positive then u64_as_f64 0 else PrimFloat.opp (u64_as_f64 0), skip_digits s).

(** The digit loop of [parse_exponent] ([exp] is an [i32]). *)
Fixpoint exponent_digits (positive : bool) (significand starting_exp : Z)
  (positive_exp : bool) (exp : Z) (s : string) : option (f64 * string) :=
  let finish (s : string) :=
    let final_exp :=
      if positive_exp then saturate_i32 (starting_exp + exp)
      else saturate_i32 (starting_exp - exp) in
    with_rest s (f64_from_parts positive significand final_exp) in
  match s with
  | String c r =>
      if is_digit c then
        if overflow exp (digit_val c) i32_max
        then parse_exponent_overflow positive (significand =? 0) positive_exp r
        else exponent_digits positive significand starting_exp positive_exp
               (exp * 10 + digit_val c) r
      else finish s
  | EmptyString => finish s
  end.

(** [parse_exponent], after the [e] or [E]: an optional sign, then at
    least one digit. *)
Definition parse_exponent (positive : bool) (significand starting_exp : Z) (s : string)
  : option (f64 * string) :=
  let '(positive_exp, s1) :=
    match s with
    | String c r =>
        if (N_of_ascii c =? 43)%N then (true, r)
        else if (N_of_ascii c =? 45)%N then (false, r)
        else (true, s)
    | EmptyString => (true, s)
    end in
  match s1 with
  | String c r =>
      if is_digit c
      then exponent_digits positive significand starting_exp positive_exp (digit_val c) r
      else None
  | EmptyString => None
  end.

(** An exponent part if one follows, else [f64_from_parts]. *)
Definition after_digits (positive : bool) (significand exponent : Z) (s : string)
  : option (f64 * string) :=
  match s with
  | String c r =>
      if is_exp_mark c then parse_exponent positive significand exponent r
      else with_rest s (f64_from_parts positive significand exponent)
  | EmptyString => with_rest s (f64_from_parts positive significand exponent)
  end.

(** [parse_decimal_overflow]: the remaining digits are ignored. *)
Definition parse_decimal_overflow (positive : bool) (significand exponent : Z) (s : string)
  : option (f64 * string) :=
  after_digits positive significand exponent (skip_digits s).

(** The digit loop of [parse_decimal]; at least one digit must follow the
    point. *)
Fixpoint decimal_digits (positive : bool) (significand exponent_before exponent_after : Z)
  (s : string) : option (f64 * string) :=
  let finish (s : string) :=
    if exponent_after =? 0 then None
    else after_digits positive significand (exponent_before + exponent_after) s in
  match s with
  | String c r =>
      if is_digit c then
        if overflow significand (digit_val c) u64_max
        then parse_decimal_overflow positive significand (exponent_before + exponent_after) s
        else decimal_digits positive (significand * 10 + digit_val c) exponent_before
               (exponent_after - 1) r
      else finish s
  | EmptyString => finish s
  end.

(** [parse_decimal], after the point. *)
Definition parse_decimal (positive : bool) (significand exponent_before : Z) (s : string)
  : option (f64 * string) :=
  decimal_digits positive significand exponent_before 0 s.

(** [parse_long_integer]: an integer past [u64::MAX]; each further digit
    only raises the exponent. *)
Fixpoint parse_long_integer (positive : bool) (significand exponent : Z) (s : string)
  : option (f64 * string) :=
  match s with
  | String c r =>
      if is_digit c then parse_long_integer positive significand (exponent + 1) r
      else if is_dot c then parse_decimal positive significand exponent r
      else if is_exp_mark c then parse_exponent positive significand exponent r
      else with_rest s (f64_from_parts positive significand exponent)
  | EmptyString => with_rest s (f64_from_parts positive significand exponent)
  end.

(** [ParserNumber]. *)
Inductive ParserNumber := PU64 (n : Z) | PI64 (n : Z) | PF64 (f : f64).

Definition as_f64 (o : option (f64 * string)) : option (ParserNumber * string) :=
  match o with Some (f, r) => Some (PF64 f, r) | None => None end.

(** [parse_number]: a fraction or an exponent makes an [f64]; otherwise a
    [u64], or for a negative literal the [i64] [(significand as i64)
    .wrapping_neg()], an [f64] when that is not negative ([-0] and
    magnitudes above [2^63]). *)
Definition parse_number_tail (positive : bool) (significand : Z) (s : string)
  : option (ParserNumber * string) :=
  let integer :=
    if positive then Some (PU64 significand, s)
    else
      let as_i64 := if significand <? 2 ^ 63 then significand else significand - 2 ^ 64 in
      let neg := if as_i64 =? - 2 ^ 63 then as_i64 else - as_i64 in
      if 0 <=? neg then Some (PF64 (PrimFloat.opp (u64_as_f64 significand)), s)
      else Some (PI64 neg, s) in
  match s with
  | String c r =>
      if is_dot c then as_f64 (parse_decimal positive significand 0 r)
      else if is_exp_mark c then as_f64 (parse_exponent positive significand 0 r)
      else integer
  | EmptyString => integer
  end.

(** The digit loop of [parse_integer]: the significand stays a [u64]
    until the next digit would overflow it. *)
Fixpoint integer_digits (positive : bool) (significand : Z) (s : string)
  : option (ParserNumber * string) :=
  match s with
  | String c r =>
      if is_digit c then
        if overflow significand (digit_val c) u64_max
        then as_f64 (parse_long_integer positive significand 0 s)
        else integer_digits positive (significand * 10 + digit_val c) r
      else parse_number_tail positive significand s
  | EmptyString => parse_number_tail positive significand s
  end.

(** [parse_integer]: a leading [0] may not be followed by a digit. *)
Definition parse_integer (positive : bool) (s : string) : option (ParserNumber * string) :=
  match s with
  | String c r =>
      if (N_of_ascii c =? 48)%N then
        match r with
        | String c' _ => if is_digit c' then None else parse_number_tail positive 0 r
        | EmptyString => parse_number_tail positive 0 r
        end
      else if is_digit c then integer_digits positive (digit_val c) r
      else None
  | EmptyString => None
  end.

End Numbers.

(** A number literal: [-] then [parse_integer(false)], or
    [parse_integer(true)]; the [Value] visitor keeps integers and makes a
    [Number] of the (always finite) [f64]. *)
Definition parse_number (s : string) : option (Value * string) :=
  let r :=
    match s with
    | String c r => if (N_of_ascii c =? 45)%N then parse_integer false r else parse_integer true s
    | EmptyString => parse_integer true s
    end in
  match r with
  | Some (PU64 n, r') | Some (PI64 n, r') => Some (VNum n, r')
  | Some (PF64 f, r') => Some (VFloat f, r')
  | None => None
  end.

Definition ch (n : N) : ascii := ascii_of_N n.

(** One JSON value (leading whitespace skipped); [rd] is serde_json's
    [remaining_depth]. *)
Fixpoint parse_value (fuel rd : nat) (s : string) : option (Value * string) :=
  match fuel with
  | O => None
  | Datatypes.S f =>
      match skip_ws s with
      | EmptyString => None
      | String c r =>
          if Ascii.eqb c "n"%char then
            match r with
            | String "u" (String "l" (String "l" r')) => Some (VNull, r')
            | _ => None
            end
          else if Ascii.eqb c "t"%char then
            match r with
            | String "r" (String "u" (String "e" r')) => Some (VBool true, r')
            | _ => None
            end
          else if Ascii.eqb c "f"%char then
            match r with
            | String "a" (String "l" (String "s" (String "e" r'))) => Some (VBool false, r')
            | _ => None
            end
          else if Ascii.eqb c dq then
            match parse_str r with Some (x, r') => Some (VStr x, r') | None => None end
          else if Ascii.eqb c "["%char then
            let rd' := Nat.pred rd in
            if Nat.eqb rd' 0 then None
            else
              match skip_ws r with
              | String c' r' =>
                  if Ascii.eqb c' "]"%char then Some (VArr [], r')
                  else
                    match parse_elems f rd' r with
                    | Some (l, r'') => Some (VArr l, r'')
                    | None => None
                    end
              | EmptyString => None
              end
          else if Ascii.eqb c "{"%char then
            let rd' := Nat.pred rd in
            if Nat.eqb rd' 0 then None
            else
              match skip_ws r with
              | String c' r' =>
                  if Ascii.eqb c' "}"%char then Some (VObj [], r')
                  else
                    match parse_members f rd' r with
                    | Some (m, r'') => Some (VObj m, r'')
                    | None => None
                    end
              | EmptyString => None
              end
          else if Ascii.eqb c "-"%char || is_digit c then parse_number (String c r)
          else None
      end
  end
(** Array elements: a value, then [,] and more, or the closing bracket. *)
with parse_elems (fuel rd : nat) (s : string) : option (list Value * string) :=
  match fuel with
  | O => None
  | Datatypes.S f =>
      match parse_value f rd s with
      | None => None
      | Some (v, r) =>
          match skip_ws r with
          | String c r' =>
              if Ascii.eqb c ","%char then
                match parse_elems f rd r' with
                | Some (l, r'') => Some (v :: l, r'')
                | None => None
                end
              else if Ascii.eqb c "]"%char then Some ([v], r')
              else None
          | EmptyString => None
          end
      end
  end
(** Object members: a string key, [:], a value, then [,] and more, or the
    closing brace. *)
with parse_members (fuel rd : nat) (s : string)
  : option (list (string * Value) * string) :=
  match fuel with
  | O => None
  | Datatypes.S f =>
      match skip_ws s with
      | String c r =>
          if Ascii.eqb c dq then
            match parse_str r with
            | None => None
            | Some (k, r1) =>
                match skip_ws r1 with
                | String c1 r2 =>
                    if Ascii.eqb c1 ":"%char then
                      match parse_value f rd r2 with
                      | None => None
                      | Some (v, r3) =>
                          match skip_ws r3 with
                          | String c3 r4 =>
                              if Ascii.eqb c3 ","%char then
                                match parse_members f rd r4 with
                                | Some (m, r5) => Some ((k, v) :: m, r5)
                                | None => None
                                end
                              else if Ascii.eqb c3 "}"%char then Some ([(k, v)], r4)
                              else None
                          | EmptyString => None
                          end
                      end
                    else None
                | EmptyString => None
                end
            end
          else None
      | EmptyString => None
      end
  end.

(** The whole input must be one value plus trailing whitespace
    ([Deserializer::end]). Returns the members as a visitor sees them. *)
Definition parse_json (s : string) : option Value :=
  match parse_value (Datatypes.S (String.length s)) 128 s with
  | Some (v, r) => match skip_ws r with EmptyString => Some v | _ => None end
  | None => None
  end.

(** [Map::insert] of each member in turn. *)
Fixpoint insert_all (m : list (string * Value)) (acc : list (string * Value))
  : list (string * Value) :=
  match m with
  | [] => acc
  | (k, x) :: m' => insert_all m' (map_insert k x acc)
  end.

(** The [Value] a [Value] visitor builds from what it is shown: objects
    are collected with [Map::insert], so a repeated key keeps its last value. *)
Fixpoint value_of_content (c : Value) : Value :=
  match c with
  | VArr l => VArr (map value_of_content l)
  | VObj m => VObj (insert_all (map (fun kv => (fst kv, value_of_content (snd kv))) m) [])
  | x => x
  end.

Definition value_from_str (s : string) : option Value :=
  option_map value_of_content (parse_json s).

(* ================================================================= *)
(** ** ws.rs: the WebSocket event protocol *)

Module Ws.

(** [WsEvent] (ws.rs 62-83), [#[serde(tag = "type", rename_all = "snake_case")]]. *)
Inductive WsEvent :=
| Patch (target : string) (data : Value)
| Html (target : string) (markup : string)
| Invalidate (target : string)
| Navigate (path : string)
| Custom (event : string) (data : Value).

(** The constructors of ws.rs 92-147; [serde_json::to_value] failing falls
    back to [Null]. *)
Definition patch (data : RData) (target : string) : WsEvent :=
  Patch target (match to_value data with Some v => v | None => VNull end).
Definition html (markup target : string) : WsEvent := Html target markup.
Definition invalidate (target : string) : WsEvent := Invalidate target.
Definition navigate (path : string) : WsEvent := Navigate path.
Definition custom (event : string) (data : RData) : WsEvent :=
  Custom event (match to_value data with Some v => v | None => VNull end).

(** The map the derived [Serialize] writes: the tag entry first, then the
    variant's fields in declaration order. *)
Definition serialize (e : WsEvent) : list (string * Value) :=
  match e with
  | Patch t d => [("type", VStr "patch"); ("target", VStr t); ("data", d)]
  | Html t m => [("type", VStr "html"); ("target", VStr t); ("markup", VStr m)]
  | Invalidate t => [("type", VStr "invalidate"); ("target", VStr t)]
  | Navigate p => [("type", VStr "navigate"); ("path", VStr p)]
  | Custom ev d => [("type", VStr "custom"); ("event", VStr ev); ("data", d)]
  end.

(** [serde_json::to_string(&event)]. *)
Definition to_json_string (e : WsEvent) : string := to_string (VObj (serialize e)).

(** The variant identifier read from the tag. *)
Inductive Variant := VPatch | VHtml | VInvalidate | VNavigate | VCustom.

Definition variant_of_tag (tag : Value) : result Variant DeError :=
  match tag with
  | VStr "patch" => Ok VPatch
  | VStr "html" => Ok VHtml
  | VStr "invalidate" => Ok VInvalidate
  | VStr "navigate" => Ok VNavigate
  | VStr "custom" => Ok VCustom
  | VStr s => Err (UnknownVariant s)
  | _ => Err InvalidType
  end.

Inductive FieldTy := FString | FValue.

Definition variant_fields (v : Variant) : list (string * FieldTy) :=
  match v with
  | VPatch => [("target", FString); ("data", FValue)]
  | VHtml => [("target", FString); ("markup", FString)]
  | VInvalidate => [("target", FString)]
  | VNavigate => [("path", FString)]
  | VCustom => [("event", FString); ("data", FValue)]
  end.

(** A field value from buffered content: a [String] needs a JSON string,
    a [Value] accepts anything. *)
Definition field_value (ty : FieldTy) (c : Value) : result Value DeError :=
  match ty with
  | FString => match c with VStr s => Ok (VStr s) | _ => Err InvalidType end
  | FValue => Ok (value_of_content c)
  end.

Fixpoint field_ty (k : string) (fs : list (string * FieldTy)) : option FieldTy :=
  match fs with
  | [] => None
  | (k', t) :: fs' => if String.eqb k k' then Some t else field_ty k fs'
  end.

Fixpoint lookup_field (k : string) (got : list (string * Value)) : option Value :=
  match got with
  | [] => None
  | (k', v) :: got' => if String.eqb k k' then Some v else lookup_field k got'
  end.

(** The derived struct visitor's [visit_map]: known keys are read when met
    (a second occurrence is a [duplicate_field] error), unknown keys are
    ignored, then every field must have been seen. *)
Fixpoint visit_map_fields (fs : list (string * FieldTy)) (m : list (string * Value))
  (got : list (string * Value)) : result (list (string * Value)) DeError :=
  match m with
  | [] => Ok got
  | (k, c) :: m' =>
      match field_ty k fs with
      | None => visit_map_fields fs m' got
      | Some ty =>
          match lookup_field k got with
          | Some _ => Err (DuplicateField k)
          | None =>
              match field_value ty c with
              | Ok v => visit_map_fields fs m' (got ++ [(k, v)])%list
              | Err e => Err e
              end
          end
      end
  end.

Fixpoint collect_fields (fs : list (string * FieldTy)) (got : list (string * Value))
  : result (list Value) DeError :=
  match fs with
  | [] => Ok []
  | (k, _) :: fs' =>
      match lookup_field k got with
      | None => Err (MissingField k)
      | Some v =>
          match collect_fields fs' got with
          | Ok vs => Ok (v :: vs)
          | Err e => Err e
          end
      end
  end.

(** The derived struct visitor's [visit_seq]: fields in order, and the
    sequence must have exactly as many elements. *)
Fixpoint visit_seq_fields (fs : list (string * FieldTy)) (l : list Value)
  : result (list Value) DeError :=
  match fs, l with
  | [], [] => Ok []
  | [], _ :: _ => Err InvalidLength
  | _ :: _, [] => Err InvalidLength
  | (_, ty) :: fs', c :: l' =>
      match field_value ty c with
      | Err e => Err e
      | Ok v =>
          match visit_seq_fields fs' l' with
          | Ok vs => Ok (v :: vs)
          | Err e => Err e
          end
      end
  end.

Definition build (v : Variant) (vs : list Value) : result WsEvent DeError :=
  match v, vs with
  | VPatch, [VStr t; d] => Ok (Patch t d)
  | VHtml, [VStr t; VStr m] => Ok (Html t m)
  | VInvalidate, [VStr t] => Ok (Invalidate t)
  | VNavigate, [VStr p] => Ok (Navigate p)
  | VCustom, [VStr ev; d] => Ok (Custom ev d)
  | _, _ => Err InvalidType
  end.

(** serde's [TaggedContentVisitor::visit_map]: the ["type"] entry is read as
    the variant (a second one is a [duplicate_field] error); every other entry
    is buffered, in order. *)
Fixpoint split_tag (m : list (string * Value)) (tag : option Variant)
  (rest : list (string * Value)) : result (Variant * list (string * Value)) DeError :=
  match m with
  | [] =>
      match tag with
      | None => Err (MissingField "type")
      | Some t => Ok (t, rest)
      end
  | (k, c) :: m' =>
      if String.eqb k "type" then
        match tag with
        | Some _ => Err (DuplicateField "type")
        | None =>
            match variant_of_tag c with
            | Ok t => split_tag m' (Some t) rest
            | Err e => Err e
            end
        end
      else split_tag m' tag (rest ++ [(k, c)])%list
  end.

(** The derived [Deserialize] of the internally tagged enum: a map (tag
    anywhere among the entries) or a sequence (tag first); anything else is an
    [invalid_type] error. *)
Definition decode (raw : Value) : result WsEvent DeError :=
  match raw with
  | VObj m =>
      match split_tag m None [] with
      | Err e => Err e
      | Ok (v, rest) =>
          match visit_map_fields (variant_fields v) rest [] with
          | Err e => Err e
          | Ok got =>
              match collect_fields (variant_fields v) got with
              | Err e => Err e
              | Ok vs => build v vs
              end
          end
      end
  | VArr (t :: l) =>
      match variant_of_tag t with
      | Err e => Err e
      | Ok v =>
          match visit_seq_fields (variant_fields v) l with
          | Err e => Err e
          | Ok vs => build v vs
          end
      end
  | VArr [] => Err (MissingField "type")
  | _ => Err InvalidType
  end.

(** [serde_json::from_str::<WsEvent>]; every failure of the text layer is
    reported as [SyntaxError]. *)
Definition from_str (text : string) : result WsEvent DeError :=
  match parse_json text with
  | None => Err SyntaxError
  | Some raw => decode raw
  end.

(** The well-formedness every [serde_json::Value] has: integers in the
    [i64]/[u64] range, floats finite, object keys strictly increasing (a
    [BTreeMap]). *)
Fixpoint keys_sorted (ks : list string) : bool :=
  match ks with
  | k1 :: ((k2 :: _) as ks') => str_ltb k1 k2 && keys_sorted ks'
  | _ => true
  end.

Fixpoint numbers_ok (v : Value) : bool :=
  match v with
  | VNum z => (-9223372036854775808 <=? z)%Z && (z <? 18446744073709551616)%Z
  | VFloat x => PrimFloat.is_finite x
  | VArr l => forallb numbers_ok l
  | VObj m => forallb (fun kv => numbers_ok (snd kv)) m
  | _ => true
  end.

Fixpoint keys_ok (v : Value) : bool :=
  match v with
  | VArr l => forallb keys_ok l
  | VObj m => keys_sorted (map fst m) && forallb (fun kv => keys_ok (snd kv)) m
  | _ => true
  end.

Definition value_wf (v : Value) : bool := numbers_ok v && keys_ok v.

(** The value holds no floating-point number. *)
Fixpoint float_free (v : Value) : bool :=
  match v with
  | VFloat _ => false
  | VArr l => forallb float_free l
  | VObj m => forallb (fun kv => float_free (snd kv)) m
  | _ => true
  end.

(** Integers in range and no float: the values whose text the parser
    reads back exactly. *)
Fixpoint int_only (v : Value) : bool :=
  match v with
  | VNum z => (-9223372036854775808 <=? z)%Z && (z <? 18446744073709551616)%Z
  | VFloat _ => false
  | VArr l => forallb int_only l
  | VObj m => forallb (fun kv => int_only (snd kv)) m
  | _ => true
  end.

(** Nesting depth of arrays and objects. *)
Fixpoint depth (v : Value) : nat :=
  match v with
  | VArr l => Datatypes.S (fold_right (fun x acc => Nat.max (depth x) acc) 0 l)
  | VObj m => Datatypes.S (fold_right (fun kv acc => Nat.max (depth (snd kv)) acc) 0 m)
  | _ => 0
  end.

(** A size bound on the parser's recursion for a value: one step per value,
    plus one per array element or object member. *)
Fixpoint vsize (v : Value) : nat :=
  match v with
  | VArr l => Datatypes.S (fold_right (fun x acc => Datatypes.S (vsize x + acc)) 0 l)
  | VObj m => Datatypes.S (fold_right (fun kv acc => Datatypes.S (vsize (snd kv) + acc)) 0 m)
  | _ => 0
  end.

(** [n] arrays nested in one another. *)
Fixpoint nested_array (n : nat) : Value :=
  match n with
  | O => VArr []
  | Datatypes.S k => VArr [nested_array k]
  end.

Definition event_data_depth (e : WsEvent) : nat :=
  match e with
  | Patch _ d | Custom _ d => depth d
  | _ => 0
  end.

Definition event_wf (e : WsEvent) : bool :=
  match e with
  | Patch _ d | Custom _ d => value_wf d
  | _ => true
  end.

Definition event_float_free (e : WsEvent) : bool :=
  match e with
  | Patch _ d | Custom _ d => float_free d
  | _ => true
  end.

(** [WsRecvError] (ws.rs 156-163). *)
Inductive WsRecvError :=
| Deserialize (e : DeError)
| Closed
| NonText.

(** axum's [Message]. *)
Inductive Message :=
| Text (s : string)
| Binary (b : string)
| Ping (b : string)
| Pong (b : string)
| Close (frame : option (N * string)).

(** An [axum::Error] from the transport. *)
Record AxumError := mkAxumError { axum_error_msg : string }.

(** The socket, as the successive results of [WebSocket::recv]: the list
    ends when the stream does ([None]). *)
Definition Socket := list (result Message AxumError).

(** [WsStream::recv] (ws.rs 235-250): returns the result and the socket
    left for the next call. *)
Fixpoint recv (socket : Socket) : option (result WsEvent WsRecvError) * Socket :=
  match socket with
  | [] => (None, [])
  | Err _ :: rest => (None, rest)
  | Ok msg :: rest =>
      match msg with
      | Text text =>
          (Some (match from_str text with
                 | Ok e => Ok e
                 | Err err => Err (Deserialize err)
                 end), rest)
      | Close _ => (Some (Err Closed), rest)
      | Ping _ | Pong _ => recv rest
      | Binary _ => (Some (Err NonText), rest)
      end
  end.

End Ws.

(* ================================================================= *)
(** ** response.rs: the [ResponseExt] modifiers (response.rs 71-150) *)

(** [HeaderMap::get_all]: every value stored under [name], in order. *)
Definition header_get_all (name : string) (h : list (string * string)) : list string :=
  map snd (filter (fun kv => String.eqb (fst kv) name) h).

(** [ResponseExt::no_cache]. *)
Definition no_cache (b : BaseResponse) : option BaseResponse :=
  with_header "silcrow-cache" "no-cache" b.

(** The other modifiers insert under literal names that are already
    lower-case tokens, which [HdrName::from_static] stores unchanged. *)

(** [ResponseExt::trigger_event]: the header holds [json!({ event_name: {} })]
    in compact text. *)
Definition trigger_event (event_name : string) (b : BaseResponse) : BaseResponse :=
  let map := VObj (map_insert event_name (VObj []) []) in
  let s := to_string map in
  if header_value_ok s
  then mkBase (hm_insert "silcrow-trigger" s (b_headers b)) (b_cookies b) (b_toasts b)
  else b.

(** [ResponseExt::retarget]. *)
Definition retarget (selector : string) (b : BaseResponse) : BaseResponse :=
  if header_value_ok selector
  then mkBase (hm_insert "silcrow-retarget" selector (b_headers b)) (b_cookies b) (b_toasts b)
  else b.

(** [ResponseExt::push_history]. *)
Definition push_history (url : string) (b : BaseResponse) : BaseResponse :=
  if header_value_ok url
  then mkBase (hm_insert "silcrow-push" url (b_headers b)) (b_cookies b) (b_toasts b)
  else b.

(** [ResponseExt::patch_target]: [json!] builds the payload map by inserting
    [target] then [data], and unwraps [to_value(&data)]: a body that fails
    to serialize panics ([None]). *)
Definition patch_target (selector : string) (data : RData) (b : BaseResponse)
  : option BaseResponse :=
  match to_value data with
  | None => None
  | Some v =>
      let payload := VObj (map_insert "data" v (map_insert "target" (VStr selector) [])) in
      let s := to_string payload in
      Some (if header_value_ok s
            then mkBase (hm_insert "silcrow-patch" s (b_headers b)) (b_cookies b) (b_toasts b)
            else b)
  end.

(** [ResponseExt::invalidate_target]. *)
Definition invalidate_target (selector : string) (b : BaseResponse) : BaseResponse :=
  if header_value_ok selector
  then mkBase (hm_insert "silcrow-invalidate" selector (b_headers b)) (b_cookies b) (b_toasts b)
  else b.

(** [ResponseExt::client_navigate]. *)
Definition client_navigate (path : string) (b : BaseResponse) : BaseResponse :=
  if header_value_ok path
  then mkBase (hm_insert "silcrow-navigate" path (b_headers b)) (b_cookies b) (b_toasts b)
  else b.

(** [ResponseExt::sse]. *)
Definition sse (path : string) (b : BaseResponse) : BaseResponse :=
  if header_value_ok path
  then mkBase (hm_insert "silcrow-sse" path (b_headers b)) (b_cookies b) (b_toasts b)
  else b.

(* ================================================================= *)
(** ** headers.rs: the string-valued typed headers *)

(** [headers::Error]. *)
Inductive HeaderError := HeaderInvalid.

(** [Header::decode] of [define_string_header!] (headers.rs 20-27): the first
    value, which must pass [to_str]. *)
Definition string_header_decode (values : list string) : result string HeaderError :=
  match values with
  | [] => Err HeaderInvalid
  | value :: _ =>
      match header_to_str value with
      | Some s => Ok s
      | None => Err HeaderInvalid
      end
  end.

(** [Header::encode] (headers.rs 29-33): one value when [HeaderValue::from_str]
    accepts the string, none otherwise. *)
Definition string_header_encode (s : string) : list string :=
  if header_value_ok s then [s] else [].

(* ================================================================= *)
(** ** response.rs: the derived [Deserialize] of [Toast] and [Vec<Toast>] *)

Definition toast_fields : list (string * Ws.FieldTy) :=
  [("message", Ws.FString); ("level", Ws.FString)].

Definition toast_build (vs : list Value) : result Toast DeError :=
  match vs with
  | [VStr m; VStr l] => Ok (mkToast m l)
  | _ => Err InvalidType
  end.

(** The derived struct visitor: a map (unknown keys ignored, duplicates and
    missing fields rejected) or a sequence of the two fields. *)
Definition toast_of_raw (raw : Value) : result Toast DeError :=
  match raw with
  | VObj m =>
      match Ws.visit_map_fields toast_fields m [] with
      | Err e => Err e
      | Ok got =>
          match Ws.collect_fields toast_fields got with
          | Err e => Err e
          | Ok vs => toast_build vs
          end
      end
  | VArr l =>
      match Ws.visit_seq_fields toast_fields l with
      | Err e => Err e
      | Ok vs => toast_build vs
      end
  | _ => Err InvalidType
  end.

Fixpoint toasts_of_raw (l : list Value) : result (list Toast) DeError :=
  match l with
  | [] => Ok []
  | x :: l' =>
      match toast_of_raw x with
      | Err e => Err e
      | Ok t =>
          match toasts_of_raw l' with
          | Ok ts => Ok (t :: ts)
          | Err e => Err e
          end
      end
  end.

(** [serde_json::from_str::<Vec<Toast>>]. *)
Definition toasts_from_str (s : string) : result (list Toast) DeError :=
  match parse_json s with
  | None => Err SyntaxError
  | Some (VArr l) => toasts_of_raw l
  | Some _ => Err InvalidType
  end.

(* ================================================================= *)
(** ** ws.rs: sending *)

(** [WsStream::send] (ws.rs 215-223): serializing a [WsEvent] (strings and
    [Value]s) cannot fail, so the frame handed to the socket is the event's
    text. *)
Definition send_frame (event : Ws.WsEvent) : Ws.Message := Ws.Text (Ws.to_json_string event).

(* ================================================================= *)
(** ** sse.rs: [SilcrowEvent] *)

Inductive EventKind :=
| EKPatch (data : Value) (target : string)
| EKHtml (markup : string) (target : string).

(** [SilcrowEvent::patch] and [SilcrowEvent::html] (sse.rs 73-92). *)
Definition silcrow_event_patch (data : RData) (target : string) : EventKind :=
  EKPatch (match to_value data with Some v => v | None => VNull end) target.

Definition silcrow_event_html (markup target : string) : EventKind := EKHtml markup target.

(** The [event:] name of [From<SilcrowEvent> for Event] (sse.rs 95-124). *)
Definition event_name (k : EventKind) : string :=
  match k with EKPatch _ _ => "patch" | EKHtml _ _ => "html" end.

(** The [json!] payload: [target] inserted first, then [data] or [html]. *)
Definition event_payload (k : EventKind) : Value :=
  match k with
  | EKPatch data target => VObj (map_insert "data" data (map_insert "target" (VStr target) []))
  | EKHtml markup target =>
      VObj (map_insert "html" (VStr markup) (map_insert "target" (VStr target) []))
  end.

(** The text [Event::json_data] writes for the payload (compact JSON;
    serializing a [Value] cannot fail, so the [{}] fallback is never taken). *)
Definition event_data (k : EventKind) : string := to_string (event_payload k).

(* ================================================================= *)
(** ** select.rs: registering producers (select.rs 14-113) *)

(** [Responses::html]: the producer's output goes through
    [into_pilcrow_html] (a [String] becomes [html(s)], a [Result] is
    flattened) and then [into_response]; the producer is modelled with its
    output already converted to [Result<HtmlResponse, E>]. *)
Definition html_producer {W E} (f : W -> result HtmlResponse E * W) : AsyncResponseFn W E :=
  fun w =>
    let '(r, w') := f w in
    (match r with Ok h => Ok (html_into_response h) | Err e => Err e end, w').

(** [Responses::json]: [into_pilcrow_json] of a [JsonResponse] (a bare
    [Value] is [json(v)]) is its [into_response]. *)
Definition json_producer {W E} (f : W -> result JsonResponse E * W) : AsyncResponseFn W E :=
  fun w =>
    let '(r, w') := f w in
    (match r with Ok j => Ok (json_into_response j) | Err e => Err e end, w').

(* ================================================================= *)
(** ** macros.rs: the [respond!] arms *)

(** [html => $html, json => $json] (the [raw] form passes [json($json)]). *)
Definition respond_both (req : SilcrowRequest) (h : HtmlResponse) (j : JsonResponse)
  : result Response Response :=
  match preferred_mode req with
  | Html => Ok (html_into_response h)
  | Json => Ok (json_into_response j)
  end.

(** [html => $html, json => $json, toast => ($msg, $lvl)]. *)
Definition respond_both_toast (req : SilcrowRequest) (h : HtmlResponse) (j : JsonResponse)
  (msg lvl : string) : result Response Response :=
  match preferred_mode req with
  | Html => Ok (html_into_response (mkHtml (h_data h) (with_toast msg lvl (h_base h))))
  | Json => Ok (json_into_response (mkJson (j_data j) (with_toast msg lvl (j_base j))))
  end.

(** [html => $html]. *)
Definition respond_html_only (req : SilcrowRequest) (h : HtmlResponse)
  : result Response Response :=
  match preferred_mode req with
  | Html => Ok (html_into_response h)
  | _ => Ok (status_text_response 406 "HTML required")
  end.

(** [json => $json]. *)
Definition respond_json_only (req : SilcrowRequest) (j : JsonResponse)
  : result Response Response :=
  match preferred_mode req with
  | Json => Ok (json_into_response j)
  | _ => Ok (status_text_response 406 "JSON required")
  end.

(* ================================================================= *)
(** ** Auxiliary notions for the response properties *)

(** The texts of the cookies [apply_to_response] emits: those that are
    valid header values, in order. *)
Definition valid_cookie_strings (cs : list Cookie) : list string :=
  filter header_value_ok (map cookie_to_string cs).

(** [g] holds for every byte of every string and object key in a value. *)
Fixpoint value_strings_all (g : ascii -> bool) (v : Value) : bool :=
  match v with
  | VStr s => all_chars g s
  | VArr l => forallb (value_strings_all g) l
  | VObj m => forallb (fun kv => all_chars g (fst kv) && value_strings_all g (snd kv)) m
  | _ => true
  end.

(** The byte is not DEL (127). *)
Definition no_del (c : ascii) : bool := negb (N_of_ascii c =? 127)%N.

(** The byte is neither a line feed nor a carriage return. *)
Definition not_line_break (c : ascii) : bool :=
  negb ((N_of_ascii c =? 10) || (N_of_ascii c =? 13))%N.

(* ================================================================= *)
(** ** Printer and parser: auxiliary notions *)

(** What may follow a value inside compact JSON text: the end of the text,
    a comma, or a closing bracket or brace. *)
Definition delim_ok (r : string) : bool :=
  match r with
  | EmptyString => true
  | String c _ => Ascii.eqb c ","%char || Ascii.eqb c "]"%char || Ascii.eqb c "}"%char
  end.

(** [v] is read back from its text followed by [rest], given enough fuel
    and remaining depth. *)
Definition prints_back (v : Value) : Prop :=
  forall fuel rd rest, (Ws.vsize v < fuel)%nat -> (Ws.depth v < rd)%nat ->
  delim_ok rest = true -> parse_value fuel rd (to_string v ++ rest) = Some (v, rest).

(** Induction on [Value] through the lists of arrays and objects. *)
Section ValueInd.
Variable P : Value -> Prop.
Hypothesis HNull : P VNull.
Hypothesis HBool : forall b, P (VBool b).
Hypothesis HNum : forall z, P (VNum z).
Hypothesis HFloat : forall x, P (VFloat x).
Hypothesis HStr : forall s, P (VStr s).
Hypothesis HArr : forall l, Forall P l -> P (VArr l).
Hypothesis HObj : forall m, Forall (fun kv => P (snd kv)) m -> P (VObj m).

Fixpoint value_ind' (v : Value) : P v :=
  match v with
  | VNull => HNull
  | VBool b => HBool b
  | VNum z => HNum z
  | VFloat x => HFloat x
  | VStr s => HStr s
  | VArr l =>
      HArr l ((fix go (l : list Value) : Forall P l :=
                 match l with
                 | [] => Forall_nil _
                 | x :: l' => Forall_cons _ (value_ind' x) (go l')
                 end) l)
  | VObj m =>
      HObj m ((fix go (m : list (string * Value)) : Forall (fun kv => P (snd kv)) m :=
                 match m with
                 | [] => Forall_nil _
                 | kv :: m' => Forall_cons _ (value_ind' (snd kv)) (go m')
                 end) m)
  end.
End ValueInd.

(* ================================================================= *)
(** * Properties *)

(** ** Mode resolution *)

(** C1 (counterexample): with [Accept: text/html;q=0.9, application/json;q=1.0]
    and no push-client marker the mode is not [Json]: q-values are not read. *)
Lemma C1_q_values_ignored :
  mode_of_headers (accept_hdr "text/html;q=0.9, application/json;q=1.0") <> Json.
Proof. vm_compute. discriminate. Qed.

(** C1 (amended): the mode is [Html] exactly when the Accept header is
    readable and contains the substring [text/html]; q-values and wildcards
    play no part. Both example headers resolve to [Html]. *)
Theorem C1_mode_by_substring :
  (forall h : HeaderMap,
      mode_of_headers h =
      match header_get "accept" h with
      | Some a => if all_chars is_visible_ascii a && contains a "text/html" then Html else Json
      | None => Json
      end) /\
  mode_of_headers (accept_hdr "text/html;q=0.9, application/json;q=1.0") = Html /\
  mode_of_headers (accept_hdr "text/html, application/json;q=0.8") = Html.
Proof.
  split; [| split; vm_compute; reflexivity].
  intro h. unfold mode_of_headers, from_request_parts, preferred_mode, header_to_str.
  destruct (header_get "accept" h) as [a|]; simpl.
  - destruct (all_chars is_visible_ascii a); simpl;
      destruct (header_contains_key "silcrow-target" h);
      destruct (contains a "text/html"); simpl; try reflexivity;
      destruct (contains a "application/json"); reflexivity.
  - destruct (header_contains_key "silcrow-target" h); reflexivity.
Qed.

(** C6: when neither HTML nor JSON is accepted, the mode is [Json], with or
    without the push-client marker. *)
Theorem C6_no_usable_mode_is_json :
  forall r : SilcrowRequest,
    accepts_html r = false -> accepts_json r = false -> preferred_mode r = Json.
Proof.
  intros [s h j] Hh Hj; simpl in *; subst; unfold preferred_mode; simpl.
  destruct s; reflexivity.
Qed.

Lemma C6_no_usable_mode_is_json_witness :
  accepts_html (mkSilcrowRequest true false false) = false /\
  accepts_json (mkSilcrowRequest true false false) = false /\
  preferred_mode (mkSilcrowRequest true false false) = Json.
Proof.
  split; [reflexivity | split; [reflexivity |]].
  apply C6_no_usable_mode_is_json; reflexivity.
Defined.

(** ** The dual-mode selector *)

(** C2: with both producers instrumented by call counters, [select] runs
    exactly the producer of the resolved mode (its counter goes to 1, the
    other stays 0, and the result and world are that producer's own); when
    that producer is missing, no producer runs, the world is untouched and
    the result is a 406 response. *)
Theorem C2_select_runs_only_matching :
  forall (W E : Type) (req : SilcrowRequest)
         (h j : option (AsyncResponseFn W E)) (w : W),
    let responses := mkResponses (option_map counted_html h) (option_map counted_json j) in
    let '(res, (calls_h, calls_j, w')) := select req responses (0, 0, w) in
    match preferred_mode req with
    | Html =>
        match h with
        | Some f => calls_h = 1 /\ calls_j = 0 /\ (res, w') = f w
        | None => calls_h = 0 /\ calls_j = 0 /\ w' = w /\
                  res = Ok (status_text_response 406 "HTML not provided")
        end
    | Json =>
        match j with
        | Some f => calls_h = 0 /\ calls_j = 1 /\ (res, w') = f w
        | None => calls_h = 0 /\ calls_j = 0 /\ w' = w /\
                  res = Ok (status_text_response 406 "JSON not provided")
        end
    end.
Proof.
  intros W E req h j w; simpl.
  unfold select; simpl.
  destruct (preferred_mode req).
  - destruct h as [f|]; simpl.
    + unfold counted_html. destruct (f w) as [r w']. auto.
    + auto.
  - destruct j as [f|]; simpl.
    + unfold counted_json. destruct (f w) as [r w']. auto.
    + auto.
Qed.

(** ** The JSON encoder on a serialization failure *)

(** C7: when the body value cannot be serialized, the response is the bare
    500: status 500, no header (neither the base's headers, cookies nor any
    toast) and an empty body. *)
Theorem C7_serialize_failure_is_500 :
  forall j : JsonResponse,
    to_value (j_data j) = None ->
    json_into_response j = {| status := 500; resp_headers := []; body := "" |}.
Proof.
  intros j H. unfold json_into_response. rewrite H. reflexivity.
Qed.

Lemma C7_serialize_failure_is_500_witness :
  to_value (RSeq [RInt 1; RFail]) = None /\
  json_into_response
    (mkJson (RSeq [RInt 1; RFail])
            (base_insert "silcrow-cache" "no-cache" (with_toast "Saved" "success" base_default)))
  = {| status := 500; resp_headers := []; body := "" |}.
Proof.
  split; [reflexivity |].
  apply C7_serialize_failure_is_500. reflexivity.
Defined.

(** ** Receiving WebSocket frames *)

(** C9: [recv] classifies one frame: a text frame is decoded, a decoding
    error being reported as [Deserialize]; a close frame gives [Closed]; a
    binary frame gives [NonText]; ping and pong frames are skipped. The
    socket after a reported frame is the rest of the stream, left for the
    next call. *)
Theorem C9_recv_classifies_frames :
  forall (rest : Ws.Socket) (text b : string) (frame : option (N * string)),
    (forall err, Ws.from_str text = Err err ->
       Ws.recv (Ok (Ws.Text text) :: rest) = (Some (Err (Ws.Deserialize err)), rest)) /\
    (forall e, Ws.from_str text = Ok e ->
       Ws.recv (Ok (Ws.Text text) :: rest) = (Some (Ok e), rest)) /\
    Ws.recv (Ok (Ws.Close frame) :: rest) = (Some (Err Ws.Closed), rest) /\
    Ws.recv (Ok (Ws.Binary b) :: rest) = (Some (Err Ws.NonText), rest) /\
    Ws.recv (Ok (Ws.Ping b) :: rest) = Ws.recv rest /\
    Ws.recv (Ok (Ws.Pong b) :: rest) = Ws.recv rest.
Proof.
  intros rest text b frame.
  repeat split; intros; simpl; try reflexivity.
  - rewrite H. reflexivity.
  - rewrite H. reflexivity.
Qed.

(** Ping and pong frames only. *)
Definition only_pings (l : Ws.Socket) : bool :=
  forallb (fun x => match x with Ok (Ws.Ping _) | Ok (Ws.Pong _) => true | _ => false end) l.

(** C10: a transport error, also behind any number of ping/pong frames,
    makes [recv] return [None], exactly as the end of the stream does. *)
Theorem C10_transport_error_is_none :
  forall (pre rest : Ws.Socket) (e : Ws.AxumError),
    only_pings pre = true ->
    Ws.recv (pre ++ Err e :: rest)%list = (None, rest) /\ Ws.recv pre = (None, []).
Proof.
  induction pre as [| x pre IH]; intros rest e Hp.
  - split; reflexivity.
  - simpl in Hp. apply andb_prop in Hp as [Hx Hp].
    destruct x as [m | ]; [| discriminate].
    destruct m; try discriminate; simpl; apply IH; exact Hp.
Qed.

Lemma C10_transport_error_is_none_witness :
  only_pings [Ok (Ws.Ping "a"); Ok (Ws.Pong "b")] = true /\
  Ws.recv ([Ok (Ws.Ping "a"); Ok (Ws.Pong "b")] ++ Err (Ws.mkAxumError "reset") :: [Ok (Ws.Text "{}")])%list
    = (None, [Ok (Ws.Text "{}")]) /\
  Ws.recv [Ok (Ws.Ping "a"); Ok (Ws.Pong "b")] = (None, []).
Proof.
  split; [reflexivity |].
  apply C10_transport_error_is_none. reflexivity.
Defined.

(** ** The WebSocket wire format *)

(** C5 (counterexample): the serialized custom event has no [name] field;
    its name travels in [event]. *)
Lemma C5_custom_has_no_name_field :
  ~ In "name" (map fst (Ws.serialize (Ws.Custom "refresh" VNull))).
Proof. simpl. intuition discriminate. Qed.

(** C5 (amended): every serialized event is one JSON object whose first
    member is [type], with a value among patch, html, invalidate, navigate,
    custom, followed by target and data; target and markup; target; path;
    event and data respectively. *)
Theorem C5_wire_format :
  forall e : Ws.WsEvent,
    exists tag fields,
      Ws.to_json_string e = to_string (VObj (("type", VStr tag) :: fields)) /\
      In tag ["patch"; "html"; "invalidate"; "navigate"; "custom"] /\
      map fst fields =
        (if String.eqb tag "patch" then ["target"; "data"]
         else if String.eqb tag "html" then ["target"; "markup"]
         else if String.eqb tag "invalidate" then ["target"]
         else if String.eqb tag "navigate" then ["path"]
         else ["event"; "data"]).
Proof.
  intros [t d | t m | t | p | ev d]; eexists; eexists;
    (split; [reflexivity | split; [simpl; tauto | reflexivity]]).
Qed.

(** ** Helper lemmas: strings, bytes, maps *)

Definition all_ascii : list ascii := map ascii_of_nat (seq 0 256).

Lemma in_all_ascii : forall c, In c all_ascii.
Proof.
  intro c. unfold all_ascii. rewrite <- (ascii_nat_embedding c).
  apply in_map. apply in_seq. pose proof (nat_ascii_bounded c). lia.
Qed.

(** A property of one byte is checked by running it on all 256 bytes. *)
Lemma ascii_by_cases :
  forall P : ascii -> bool, forallb P all_ascii = true -> forall c, P c = true.
Proof.
  intros P H c. rewrite forallb_forall in H. apply H, in_all_ascii.
Qed.

Lemma all_chars_app :
  forall f a b, all_chars f (a ++ b) = all_chars f a && all_chars f b.
Proof.
  intros f a b. induction a as [| c a IH]; simpl; [reflexivity |].
  rewrite IH. apply andb_assoc.
Qed.

Lemma all_chars_in : forall f t c,
  all_chars f t = true -> In c (list_ascii_of_string t) -> f c = true.
Proof.
  intros f t c. induction t as [| a t IH]; simpl; [tauto |].
  intros H [<- | Hin]; apply andb_prop in H as [Ha Ht]; auto.
Qed.

Lemma existsb_in : forall c l, existsb (Ascii.eqb c) l = true -> In c l.
Proof.
  intros c l H. apply existsb_exists in H as [x [Hx E]].
  apply Ascii.eqb_eq in E. subst x. exact Hx.
Qed.

Lemma str_length_app : forall a b : string,
  String.length (a ++ b) = (String.length a + String.length b)%nat.
Proof. induction a as [|x a IH]; intros; simpl; [reflexivity | now rewrite IH]. Qed.

Section FloatText.
Variable f : ascii -> bool.
(** The bytes ryu writes: sign, digits, point, exponent mark, and the
    letters of [null]. *)
Hypothesis Hfl : all_chars f "-0123456789.enul" = true.

Lemma fl_ok : forall c,
  existsb (Ascii.eqb c) (list_ascii_of_string "-0123456789.enul") = true -> f c = true.
Proof. intros c H. exact (all_chars_in f _ c Hfl (existsb_in c _ H)). Qed.

Lemma substring_chars : forall s n m,
  all_chars f s = true -> all_chars f (substring n m s) = true.
Proof.
  induction s as [| c s IH]; intros [| n] [| m] H; cbn [substring all_chars] in *;
    try reflexivity; try exact H.
  - apply andb_prop in H as [Hc Hs]. rewrite Hc. exact (IH 0%nat m Hs).
  - apply andb_prop in H as [Hc Hs]. exact (IH n 0%nat Hs).
  - apply andb_prop in H as [Hc Hs]. exact (IH n (Datatypes.S m) Hs).
Qed.

Lemma zeros_chars : forall n, all_chars f (zeros n) = true.
Proof.
  induction n as [| n IH]; cbn [zeros all_chars]; [reflexivity |].
  rewrite fl_ok by reflexivity. exact IH.
Qed.

Lemma uint_chars : forall d, all_chars f (uint_to_string d) = true.
Proof.
  induction d; cbn [uint_to_string all_chars]; try reflexivity;
    rewrite fl_ok by reflexivity; exact IHd.
Qed.

Lemma print_Z_chars : forall z, all_chars f (print_Z z) = true.
Proof.
  intro z. unfold print_Z. destruct (Z.to_int z); [apply uint_chars |].
  cbn [all_chars]. rewrite fl_ok by reflexivity. apply uint_chars.
Qed.

Ltac fl_chars :=
  repeat first
    [ rewrite all_chars_app
    | rewrite print_Z_chars
    | rewrite zeros_chars
    | rewrite substring_chars by apply print_Z_chars
    | rewrite fl_ok by reflexivity
    | progress cbn [all_chars] ].

Lemma ryu_format_chars : forall d k, all_chars f (ryu_format d k) = true.
Proof.
  intros d k. unfold ryu_format. cbv zeta.
  repeat match goal with |- context [if ?b then _ else _] => destruct b end;
    fl_chars; reflexivity.
Qed.

(** Every byte of the text of an [f64] is one of those. *)
Lemma format_f64_chars : forall x, all_chars f (format_f64 x) = true.
Proof.
  intro x. unfold format_f64.
  destruct (FloatOps.Prim2SF x) as [s | s | | s m e].
  - destruct s; cbn [append]; fl_chars; reflexivity.
  - cbn [all_chars]. rewrite !fl_ok by reflexivity. reflexivity.
  - cbn [all_chars]. rewrite !fl_ok by reflexivity. reflexivity.
  - destruct (ryu_shortest (Zpos m) e) as [d k].
    destruct (strip_zeros 20 d k) as [d' k'].
    rewrite all_chars_app, ryu_format_chars.
    destruct s; cbn [all_chars]; [rewrite fl_ok by reflexivity |]; reflexivity.
Qed.
End FloatText.

(** The text of an [f64] is never empty. *)
Lemma format_f64_nonempty : forall x, format_f64 x <> EmptyString.
Proof.
  intro x. unfold format_f64.
  destruct (FloatOps.Prim2SF x) as [s | s | | s m e];
    [destruct s; discriminate | discriminate | discriminate |].
  destruct (ryu_shortest (Zpos m) e) as [d k].
  destruct (strip_zeros 20 d k) as [d' k'].
  intro E. apply (f_equal String.length) in E. rewrite !str_length_app in E.
  revert E. unfold ryu_format. cbv zeta.
  repeat match goal with |- context [if ?b then _ else _] => destruct b end;
    rewrite ?str_length_app; cbn [String.length]; lia.
Qed.

Lemma urlencode_header_ok : forall s, header_value_ok (urlencode s) = true.
Proof.
  unfold header_value_ok.
  induction s as [| c s IH]; [reflexivity |].
  simpl urlencode. rewrite all_chars_app, IH, andb_true_r.
  revert c. apply ascii_by_cases. vm_compute. reflexivity.
Qed.

Lemma toast_cookie_header_ok :
  forall ts, header_value_ok (cookie_to_string (toast_cookie ts)) = true.
Proof.
  intro ts. unfold header_value_ok, cookie_to_string, toast_cookie; simpl.
  rewrite all_chars_app. fold (header_value_ok (urlencode (toasts_to_string ts))).
  rewrite urlencode_header_ok. reflexivity.
Qed.

Lemma apply_to_response_body :
  forall base r, body (apply_to_response base r) = body r /\
                 status (apply_to_response base r) = status r.
Proof.
  intros [hs cs ts] r. unfold apply_to_response; simpl.
  assert (Hc : forall cs r, body (fold_left (fun r c =>
              let s := cookie_to_string c in
              if header_value_ok s then append_header "set-cookie" s r else r) cs r) = body r /\
            status (fold_left (fun r c =>
              let s := cookie_to_string c in
              if header_value_ok s then append_header "set-cookie" s r else r) cs r) = status r).
  { induction cs0 as [| c cs0 IH]; intro r0; simpl; [auto |].
    destruct (header_value_ok (cookie_to_string c)); rewrite (proj1 (IH _)), (proj2 (IH _));
      auto. }
  assert (Hh : forall hs r, body (fold_left (fun r kv => set_header (fst kv) (snd kv) r) hs r)
                            = body r /\
            status (fold_left (fun r kv => set_header (fst kv) (snd kv) r) hs r) = status r).
  { induction hs0 as [| kv hs0 IH]; intro r0; simpl; [auto |].
    rewrite (proj1 (IH _)), (proj2 (IH _)); auto. }
  rewrite (proj1 (Hc _ _)), (proj2 (Hc _ _)). apply Hh.
Qed.

Lemma map_get_insert_same :
  forall k v m, map_get k (map_insert k v m) = Some v.
Proof.
  intros k v m. induction m as [| [k' v'] m IH]; simpl.
  - rewrite String.eqb_refl. reflexivity.
  - destruct (String.eqb k k') eqn:E; simpl.
    + rewrite String.eqb_refl. reflexivity.
    + destruct (str_ltb k k'); simpl.
      * rewrite String.eqb_refl. reflexivity.
      * rewrite E. exact IH.
Qed.

Lemma map_get_insert_other :
  forall k k' v m, k' <> k -> map_get k' (map_insert k v m) = map_get k' m.
Proof.
  intros k k' v m Hne. induction m as [| [k0 v0] m IH]; simpl.
  - apply String.eqb_neq in Hne. rewrite Hne. reflexivity.
  - pose proof Hne as Hne'. apply String.eqb_neq in Hne'.
    destruct (String.eqb k k0) eqn:E; simpl.
    + apply String.eqb_eq in E. subst k0. rewrite Hne'. reflexivity.
    + destruct (str_ltb k k0); simpl.
      * rewrite Hne'. reflexivity.
      * destruct (String.eqb k' k0); [reflexivity | exact IH].
Qed.

(** ** Toasts in encoded responses *)

Lemma attach_toasts_shape :
  forall ts v, ts <> [] ->
    match v with
    | VObj m =>
        exists m', attach_toasts ts v = VObj m' /\
                   map_get "_toasts" m' = Some (toasts_value ts) /\
                   forall k, k <> "_toasts" -> map_get k m' = map_get k m
    | _ => attach_toasts ts v = VObj [("_toasts", toasts_value ts); ("data", v)]
    end.
Proof.
  intros [| t ts] v Hne; [congruence |].
  destruct v; try reflexivity.
  eexists; split; [reflexivity |]. split.
  - apply map_get_insert_same.
  - intros k Hk. apply map_get_insert_other. exact Hk.
Qed.

(** C4 (counterexample): a body object that already has a [_toasts]
    member loses it: the encoded body holds only the toast list there. *)
Lemma C4_existing_toasts_field_replaced :
  to_value (RStruct [("_toasts", RInt 1)]) = Some (VObj [("_toasts", VNum 1)]) /\
  body (json_into_response
          (mkJson (RStruct [("_toasts", RInt 1)]) (with_toast "Saved" "success" base_default)))
  = to_string (VObj [("_toasts", toasts_value [mkToast "Saved" "success"])]).
Proof. split; vm_compute; reflexivity. Qed.

(** C4 (amended): with a non-empty toast list and a body that serializes
    to [v], the encoded body is [v] with the toasts attached: for an object,
    [_toasts] holds the toasts and every other member is unchanged (an
    existing [_toasts] member is replaced); for any other value, the body is
    exactly the object [{_toasts: toasts, data: v}]. *)
Theorem C4_json_toast_envelope :
  forall (data : RData) (base : BaseResponse) (v : Value),
    to_value data = Some v -> b_toasts base <> [] ->
    body (json_into_response (mkJson data base)) = to_string (attach_toasts (b_toasts base) v) /\
    match v with
    | VObj m =>
        exists m', attach_toasts (b_toasts base) v = VObj m' /\
                   map_get "_toasts" m' = Some (toasts_value (b_toasts base)) /\
                   forall k, k <> "_toasts" -> map_get k m' = map_get k m
    | _ => attach_toasts (b_toasts base) v =
           VObj [("_toasts", toasts_value (b_toasts base)); ("data", v)]
    end.
Proof.
  intros data base v Hv Hne. split.
  - unfold json_into_response; simpl. rewrite Hv.
    rewrite (proj1 (apply_to_response_body _ _)). reflexivity.
  - apply attach_toasts_shape. exact Hne.
Qed.

Lemma C4_json_toast_envelope_witness :
  to_value (RSeq [RInt 1; RInt 2; RInt 3]) = Some (VArr [VNum 1; VNum 2; VNum 3]) /\
  b_toasts (with_toast "Saved" "success" base_default) <> [] /\
  body (json_into_response (mkJson (RSeq [RInt 1; RInt 2; RInt 3])
                                   (with_toast "Saved" "success" base_default)))
  = to_string (attach_toasts [mkToast "Saved" "success"] (VArr [VNum 1; VNum 2; VNum 3])).
Proof.
  split; [reflexivity | split; [discriminate |]].
  apply (C4_json_toast_envelope (RSeq [RInt 1; RInt 2; RInt 3])
           (with_toast "Saved" "success" base_default) (VArr [VNum 1; VNum 2; VNum 3]));
    [reflexivity | discriminate].
Defined.

Lemma apply_toast_cookies_nonempty :
  forall base r, b_toasts base <> [] ->
    apply_toast_cookies base r =
    append_header "set-cookie" (cookie_to_string (toast_cookie (b_toasts base))) r.
Proof.
  intros [hs cs ts] r Hne. unfold apply_toast_cookies. cbn [b_toasts] in *.
  destruct ts as [| t ts]; [congruence |].
  rewrite toast_cookie_header_ok. reflexivity.
Qed.

(** C3 (counterexample): a JSON response with a toast whose body fails to
    serialize is the bare 500: no header, no cookie, empty body; the toast
    reaches the client through neither channel. *)
Lemma C3_toast_dropped_on_500 :
  json_into_response (mkJson RFail (with_toast "Saved" "success" base_default))
  = {| status := 500; resp_headers := []; body := "" |}.
Proof. reflexivity. Qed.

(** C3 (amended): with a non-empty toast list, the HTML and Navigate
    encoders leave the body as given and append exactly one [silcrow_toasts]
    cookie (the URL-encoded JSON array of the toasts) after the base's own
    headers and cookies; the JSON encoder, when the body serializes, puts the
    toasts in the [_toasts] member and adds no cookie beyond the base's own;
    when the JSON body fails to serialize, the response is the bare 500. *)
Theorem C3_toast_channels :
  forall base : BaseResponse,
    b_toasts base <> [] ->
    let cookie := cookie_to_string (toast_cookie (b_toasts base)) in
    (forall d,
        html_into_response (mkHtml d base) =
        append_header "set-cookie" cookie
          (apply_to_response base
             {| status := 200; resp_headers := [("content-type", "text/html; charset=utf-8")];
                body := d |})) /\
    (forall p r,
        navigate_into_response (mkNavigate p base) = Some r ->
        r = append_header "set-cookie" cookie
              (apply_to_response base
                 {| status := 303; resp_headers := [("location", p)]; body := "" |})) /\
    (forall data v,
        to_value data = Some v ->
        json_into_response (mkJson data base) =
        apply_to_response base
          {| status := 200; resp_headers := [("content-type", "application/json")];
             body := to_string (attach_toasts (b_toasts base) v) |} /\
        exists m, attach_toasts (b_toasts base) v = VObj m /\
                  map_get "_toasts" m = Some (toasts_value (b_toasts base))) /\
    (forall data,
        to_value data = None ->
        json_into_response (mkJson data base) = internal_server_error) /\
    c_value (toast_cookie (b_toasts base)) = urlencode (toasts_to_string (b_toasts base)).
Proof.
  intros base Hne cookie.
  split; [| split; [| split; [| split]]].
  - intro d. unfold html_into_response; simpl.
    apply apply_toast_cookies_nonempty. exact Hne.
  - intros p r H. unfold navigate_into_response in H; simpl in H.
    destruct (header_value_ok p); [| discriminate].
    injection H as <-. apply apply_toast_cookies_nonempty. exact Hne.
  - intros data v Hv. unfold json_into_response; simpl. rewrite Hv. split; [reflexivity |].
    pose proof (attach_toasts_shape (b_toasts base) v Hne) as Hs.
    destruct v as [| | | | | | m];
      try (eexists; split; [exact Hs | reflexivity]).
    destruct Hs as [m' [H1 [H2 _]]]. exists m'. auto.
  - intros data Hv. unfold json_into_response; simpl. rewrite Hv. reflexivity.
  - reflexivity.
Qed.

Lemma C3_toast_channels_witness :
  b_toasts (with_toast "Saved" "success" base_default) <> [] /\
  html_into_response (mkHtml "<p>ok</p>" (with_toast "Saved" "success" base_default)) =
  append_header "set-cookie"
    (cookie_to_string (toast_cookie [mkToast "Saved" "success"]))
    (apply_to_response (with_toast "Saved" "success" base_default)
       {| status := 200; resp_headers := [("content-type", "text/html; charset=utf-8")];
          body := "<p>ok</p>" |}).
Proof.
  split; [discriminate |].
  exact (proj1 (C3_toast_channels (with_toast "Saved" "success" base_default)
                  ltac:(discriminate)) "<p>ok</p>").
Defined.

(* ----------------------------------------------------------------- *)
(** Printer and parser agree: strings and integers. *)

Lemma str_app_assoc : forall a b c : string, (a ++ b) ++ c = a ++ (b ++ c).
Proof. induction a as [|x a IH]; intros; simpl; [reflexivity | now rewrite IH]. Qed.

Lemma str_app_nil : forall a : string, a ++ EmptyString = a.
Proof. induction a as [|x a IH]; simpl; [reflexivity | now rewrite IH]. Qed.

Lemma parse_escape_char : forall c t,
  parse_str (escape_char c ++ t) = prepend (String c EmptyString) (parse_str t).
Proof. intros [[] [] [] [] [] [] [] []] t; reflexivity. Qed.

Lemma parse_escape : forall s rest,
  parse_str (escape s ++ String dq rest) = Some (s, rest).
Proof.
  induction s as [|c s IH]; intros rest; simpl.
  - reflexivity.
  - rewrite str_app_assoc, parse_escape_char, IH. reflexivity.
Qed.

Lemma parse_quote : forall s rest,
  parse_str (escape s ++ String dq EmptyString ++ rest) = Some (s, rest).
Proof. intros. apply parse_escape. Qed.

Lemma skip_ws_nows : forall c s, is_ws c = false -> skip_ws (String c s) = String c s.
Proof. intros c s H. simpl. now rewrite H. Qed.

Lemma delim_ok_facts : forall r, delim_ok r = true ->
  match r with
  | String c _ =>
      is_digit c = false /\ is_ws c = false /\ is_dot c = false /\ is_exp_mark c = false
  | EmptyString => True
  end.
Proof.
  intros [|c r] H; simpl in *; [auto |].
  apply orb_true_iff in H as [H | H]; [apply orb_true_iff in H as [H | H] |];
    apply Ascii.eqb_eq in H; subst c; repeat split.
Qed.

Lemma nzhead_not_D0 : forall d d', Decimal.nzhead d <> Decimal.D0 d'.
Proof. induction d; intros d' E; simpl in E; try discriminate. exact (IHd d' E). Qed.

Lemma pos_to_uint_head : forall p d', Pos.to_uint p <> Decimal.D0 d'.
Proof.
  intros p d' E.
  pose proof (DecimalPos.Unsigned.to_of (Pos.to_uint p)) as H.
  rewrite DecimalPos.Unsigned.of_to in H. simpl in H.
  rewrite E in H. unfold Decimal.unorm in H. simpl in H.
  destruct (Decimal.nzhead d') eqn:E2; try discriminate.
  - injection H as H. subst d'.
    exact (DecimalPos.Unsigned.to_uint_nonzero p E).
  - exfalso. exact (nzhead_not_D0 d' u E2).
Qed.

(** [overflow!] is the test [a * 10 + b > max]. *)
Lemma overflow_spec : forall a b max : Z, (0 <= a)%Z -> (0 <= b <= 9)%Z -> (0 <= max)%Z ->
  overflow a b max = (max <? a * 10 + b)%Z.
Proof.
  intros a b max Ha Hb Hm. unfold overflow.
  pose proof (Z.div_mod max 10 ltac:(lia)) as Hd.
  pose proof (Z.mod_pos_bound max 10 ltac:(lia)) as Hr.
  destruct (Z.leb_spec (max / 10) a), (Z.ltb_spec (max / 10) a),
    (Z.ltb_spec (max mod 10) b), (Z.ltb_spec max (a * 10 + b)); simpl; lia.
Qed.

Lemma of_uint_acc_ge : forall d acc, (Zpos acc <= Zpos (Pos.of_uint_acc d acc))%Z.
Proof.
  induction d; intros acc; cbn [Pos.of_uint_acc]; [lia | ..];
    (eapply Z.le_trans; [| apply IHd]); rewrite ?Pos2Z.inj_add, ?Pos2Z.inj_mul; lia.
Qed.

Ltac digit_facts :=
  repeat match goal with
  | |- context [is_digit ?c] =>
      let v := eval vm_compute in (is_digit c) in
      lazymatch v with
      | true => change (is_digit c) with true
      | false => change (is_digit c) with false
      end
  | |- context [(N_of_ascii ?c =? ?n)%N] =>
      let v := eval vm_compute in (N_of_ascii c =? n)%N in
      lazymatch v with
      | true => change (N_of_ascii c =? n)%N with true
      | false => change (N_of_ascii c =? n)%N with false
      end
  | |- context [digit_val ?c] =>
      let v := eval vm_compute in (digit_val c) in
      lazymatch v with
      | Z0 => change (digit_val c) with v
      | Zpos _ => change (digit_val c) with v
      end
  end; cbv beta iota.

(** The [u64] digit loop reads the printed digits of a number that fits. *)
Lemma integer_digits_print : forall d acc positive rest,
  match rest with String c _ => is_digit c = false | EmptyString => True end ->
  (Zpos (Pos.of_uint_acc d acc) <= u64_max)%Z ->
  integer_digits positive (Zpos acc) (uint_to_string d ++ rest) =
  parse_number_tail positive (Zpos (Pos.of_uint_acc d acc)) rest.
Proof.
  induction d; intros acc positive rest Hr Hm;
    [destruct rest as [|c r]; [reflexivity |];
     cbn [uint_to_string append integer_digits]; now rewrite Hr | ..];
    cbn [uint_to_string Pos.of_uint_acc] in *;
    change (String ?c ?t ++ rest) with (String c (t ++ rest)); cbn [integer_digits];
    digit_facts;
    (match goal with H : (Zpos (Pos.of_uint_acc ?u ?a) <= _)%Z |- _ =>
       pose proof (of_uint_acc_ge u a) as Hg end);
    rewrite ?Pos2Z.inj_add, ?Pos2Z.inj_mul in Hg;
    (rewrite overflow_spec by (unfold u64_max; lia));
    (replace (u64_max <? _)%Z with false
       by (symmetry; apply Z.ltb_ge; unfold u64_max in *; lia));
    (rewrite <- IHd by assumption); f_equal; rewrite ?Pos2Z.inj_add, ?Pos2Z.inj_mul; lia.
Qed.

(** A number followed by a delimiter ends as an integer. *)
Lemma number_tail_delim : forall positive n rest,
  delim_ok rest = true ->
  parse_number_tail positive n rest =
  (if positive then Some (PU64 n, rest)
   else
     let as_i64 := if (n <? 2 ^ 63)%Z then n else (n - 2 ^ 64)%Z in
     let neg := if (as_i64 =? - 2 ^ 63)%Z then as_i64 else (- as_i64)%Z in
     if (0 <=? neg)%Z then Some (PF64 (PrimFloat.opp (u64_as_f64 n)), rest)
     else Some (PI64 neg, rest)).
Proof.
  intros positive n rest Hd. pose proof (delim_ok_facts rest Hd) as Hf.
  destruct rest as [|c r]; [reflexivity |].
  destruct Hf as (_ & _ & Hdot & Hexp). unfold parse_number_tail. now rewrite Hdot, Hexp.
Qed.

(** The printed digits of a positive number read back through
    [parse_integer]. *)
Lemma parse_integer_pos : forall (p : positive) positive rest,
  delim_ok rest = true -> (Zpos p <= u64_max)%Z ->
  parse_integer positive (uint_to_string (Pos.to_uint p) ++ rest) =
  parse_number_tail positive (Zpos p) rest.
Proof.
  intros p positive rest Hd Hm.
  pose proof (delim_ok_facts rest Hd) as Hf.
  assert (Hr : match rest with String c _ => is_digit c = false | EmptyString => True end)
    by (destruct rest; [exact I | apply Hf]).
  pose proof (DecimalPos.Unsigned.to_uint_nonnil p) as Hnn.
  pose proof (pos_to_uint_head p) as Hh.
  pose proof (DecimalPos.Unsigned.of_to p) as Hof.
  destruct (Pos.to_uint p) eqn:E;
    [contradiction | exfalso; exact (Hh u eq_refl) | ..];
    cbn [Pos.of_uint] in Hof; injection Hof as Hof;
    cbn [uint_to_string]; change (String ?c ?t ++ rest) with (String c (t ++ rest));
    unfold parse_integer; digit_facts;
    (rewrite integer_digits_print by (exact Hr || (rewrite Hof; exact Hm)));
    now rewrite Hof.
Qed.

Lemma parse_print_Z : forall z rest,
  Ws.int_only (VNum z) = true -> delim_ok rest = true ->
  parse_number (print_Z z ++ rest) = Some (VNum z, rest).
Proof.
  intros z rest Hz Hd. simpl in Hz. apply andb_true_iff in Hz as [Hlo Hhi].
  apply Z.leb_le in Hlo. apply Z.ltb_lt in Hhi.
  destruct z as [|p|p].
  - pose proof (delim_ok_facts rest Hd) as Hf.
    change (print_Z 0 ++ rest) with (String "0" rest).
    unfold parse_number, parse_integer. cbv beta iota.
    change (N_of_ascii "0" =? 45)%N with false. change (N_of_ascii "0" =? 48)%N with true.
    cbv beta iota.
    destruct rest as [|c r].
    + reflexivity.
    + destruct Hf as (Hc & _). rewrite Hc. rewrite number_tail_delim by exact Hd. reflexivity.
  - change (print_Z (Zpos p)) with (uint_to_string (Pos.to_uint p)).
    pose proof (DecimalPos.Unsigned.to_uint_nonnil p) as Hnn.
    assert (Hs : exists c t, uint_to_string (Pos.to_uint p) ++ rest = String c t /\
                             (N_of_ascii c =? 45)%N = false).
    { destruct (Pos.to_uint p); [contradiction | ..]; eexists; eexists; split; reflexivity. }
    destruct Hs as (c & t & Es & Hc).
    unfold parse_number. rewrite Es, Hc, <- Es.
    rewrite parse_integer_pos by (assumption || (unfold u64_max; lia)).
    rewrite number_tail_delim by exact Hd. reflexivity.
  - change (print_Z (Zneg p)) with (String "-" (uint_to_string (Pos.to_uint p))).
    change (String "-" ?t ++ rest) with (String "-" (t ++ rest)).
    unfold parse_number. change (N_of_ascii "-" =? 45)%N with true. cbv beta iota.
    rewrite parse_integer_pos by (assumption || (unfold u64_max; lia)).
    rewrite number_tail_delim by exact Hd. cbv beta iota zeta.
    destruct (Z.ltb_spec (Zpos p) (2 ^ 63)).
    + replace (Zpos p =? - 2 ^ 63)%Z with false by (symmetry; apply Z.eqb_neq; lia).
      replace (0 <=? - Zpos p)%Z with false by (symmetry; apply Z.leb_gt; lia).
      reflexivity.
    + replace (Zpos p - 2 ^ 64 =? - 2 ^ 63)%Z with true by (symmetry; apply Z.eqb_eq; lia).
      replace (0 <=? Zpos p - 2 ^ 64)%Z with false by (symmetry; apply Z.leb_gt; lia).
      do 3 f_equal. lia.
Qed.

(* ----------------------------------------------------------------- *)
(** Printer and parser agree: whole values. *)

Lemma print_Z_head : forall z rest, exists c r,
  print_Z z ++ rest = String c r /\ (Ascii.eqb c "-"%char || is_digit c) = true.
Proof.
  intros [|p|p] rest.
  - exists "0"%char, rest. split; reflexivity.
  - change (print_Z (Zpos p)) with (uint_to_string (Pos.to_uint p)).
    pose proof (DecimalPos.Unsigned.to_uint_nonnil p) as Hnn.
    destruct (Pos.to_uint p); [contradiction | ..]; simpl;
      eexists; eexists; split; reflexivity.
  - change (print_Z (Zneg p)) with ("-" ++ uint_to_string (Pos.to_uint p)).
    eexists; eexists; split; reflexivity.
Qed.

Lemma parse_value_num_start : forall f rd c r,
  (Ascii.eqb c "-"%char || is_digit c) = true ->
  parse_value (Datatypes.S f) rd (String c r) = parse_number (String c r).
Proof.
  intros f rd [[] [] [] [] [] [] [] []] r H; simpl in H; try discriminate H; reflexivity.
Qed.

Lemma num_start_facts : forall c,
  (Ascii.eqb c "-"%char || is_digit c) = true ->
  is_ws c = false /\ Ascii.eqb c "]"%char = false.
Proof.
  intros [[] [] [] [] [] [] [] []] H; simpl in H; try discriminate H; split; reflexivity.
Qed.

Lemma to_string_head : forall v rest, exists c s,
  to_string v ++ rest = String c s /\ is_ws c = false /\ Ascii.eqb c "]"%char = false.
Proof.
  intros [| [] | z | x | s | l | m] rest; try (eexists; eexists; split; [reflexivity | split; reflexivity]).
  - destruct (print_Z_head z rest) as (c & r & E & H).
    exists c, r. split; [exact E | exact (num_start_facts c H)].
  - pose proof (format_f64_chars (fun c => negb (is_ws c) && negb (Ascii.eqb c "]"%char))
                  eq_refl x) as Hc.
    pose proof (format_f64_nonempty x) as Hn.
    cbn [to_string]. destruct (format_f64 x) as [| c r]; [congruence |].
    cbn [all_chars] in Hc. apply andb_prop in Hc as [Hc _].
    apply andb_prop in Hc as [H1 H2]. apply negb_true_iff in H1, H2.
    exists c, (r ++ rest). split; [reflexivity | split; assumption].
Qed.

Lemma depth_elems : forall l n,
  (fold_right (fun x acc => Nat.max (Ws.depth x) acc) 0 l < n)%nat ->
  Forall (fun v => Ws.depth v < n)%nat l.
Proof.
  induction l as [|x l IH]; intros n H; simpl in H; constructor; [lia | apply IH; lia].
Qed.

Lemma depth_members : forall (m : list (string * Value)) n,
  (fold_right (fun kv acc => Nat.max (Ws.depth (snd kv)) acc) 0 m < n)%nat ->
  Forall (fun kv => Ws.depth (snd kv) < n)%nat m.
Proof.
  induction m as [|x m IH]; intros n H; simpl in H; constructor; [lia | apply IH; lia].
Qed.

Lemma parse_elems_S : forall f rd s,
  parse_elems (Datatypes.S f) rd s =
  match parse_value f rd s with
  | None => None
  | Some (v, r) =>
      match skip_ws r with
      | String c r' =>
          if Ascii.eqb c ","%char then
            match parse_elems f rd r' with
            | Some (l, r'') => Some (v :: l, r'')
            | None => None
            end
          else if Ascii.eqb c "]"%char then Some ([v], r')
          else None
      | EmptyString => None
      end
  end.
Proof. reflexivity. Qed.

Lemma parse_print_elems : forall l x,
  Forall (fun v => Ws.int_only v = true -> prints_back v) (x :: l) ->
  forallb Ws.int_only (x :: l) = true ->
  forall f rd rest,
  (fold_right (fun x acc => Datatypes.S (Ws.vsize x + acc)) 0 (x :: l) < f)%nat ->
  Forall (fun v => Ws.depth v < rd)%nat (x :: l) ->
  parse_elems f rd (join "," (map to_string (x :: l)) ++ String "]" rest) = Some (x :: l, rest).
Proof.
  induction l as [|y l IH]; intros x HF Hok f rd rest Hs Hd;
    inversion HF as [|? ? Hx HF']; subst; inversion Hd as [|? ? Hdx Hd']; subst;
    simpl in Hok; apply andb_true_iff in Hok as [Hokx Hok];
    destruct f as [|f]; simpl in Hs; try lia; rewrite parse_elems_S.
  - simpl join. rewrite (Hx Hokx f rd (String "]" rest)) by (reflexivity || lia).
    reflexivity.
  - change (join "," (map to_string (x :: y :: l)))
      with (to_string x ++ "," ++ join "," (map to_string (y :: l))).
    rewrite !str_app_assoc.
    rewrite (Hx Hokx f rd) by (reflexivity || lia).
    change ("," ++ ?t) with (String ","%char t).
    rewrite skip_ws_nows by reflexivity. cbv beta iota.
    rewrite IH; [reflexivity | exact HF' | exact Hok | simpl in *; lia | exact Hd'].
Qed.

Lemma parse_members_S : forall f rd s,
  parse_members (Datatypes.S f) rd s =
  match skip_ws s with
  | String c r =>
      if Ascii.eqb c dq then
        match parse_str r with
        | None => None
        | Some (k, r1) =>
            match skip_ws r1 with
            | String c1 r2 =>
                if Ascii.eqb c1 ":"%char then
                  match parse_value f rd r2 with
                  | None => None
                  | Some (v, r3) =>
                      match skip_ws r3 with
                      | String c3 r4 =>
                          if Ascii.eqb c3 ","%char then
                            match parse_members f rd r4 with
                            | Some (m, r5) => Some ((k, v) :: m, r5)
                            | None => None
                            end
                          else if Ascii.eqb c3 "}"%char then Some ([(k, v)], r4)
                          else None
                      | EmptyString => None
                      end
                  end
                else None
            | EmptyString => None
            end
        end
      else None
  | EmptyString => None
  end.
Proof. reflexivity. Qed.

Lemma parse_member_text : forall f rd k v rest,
  parse_value f rd (to_string v ++ rest) = Some (v, rest) ->
  parse_members (Datatypes.S f) rd ((quote k ++ ":" ++ to_string v) ++ rest) =
  match skip_ws rest with
  | String c3 r4 =>
      if Ascii.eqb c3 ","%char then
        match parse_members f rd r4 with
        | Some (m, r5) => Some ((k, v) :: m, r5)
        | None => None
        end
      else if Ascii.eqb c3 "}"%char then Some ([(k, v)], r4)
      else None
  | EmptyString => None
  end.
Proof.
  intros f rd k v rest Hv.
  rewrite !str_app_assoc.
  change (quote k ++ ?y) with (String dq ((escape k ++ String dq EmptyString) ++ y)).
  rewrite str_app_assoc.
  change (String dq EmptyString ++ ?y) with (String dq y).
  change (":" ++ ?y) with (String ":"%char y).
  rewrite parse_members_S, skip_ws_nows by reflexivity. cbv beta iota.
  rewrite parse_escape. cbv beta iota.
  rewrite skip_ws_nows by reflexivity. cbv beta iota.
  rewrite Hv. reflexivity.
Qed.

Lemma parse_print_members : forall (m : list (string * Value)) kv,
  Forall (fun kv => Ws.int_only (snd kv) = true -> prints_back (snd kv)) (kv :: m) ->
  forallb (fun kv => Ws.int_only (snd kv)) (kv :: m) = true ->
  forall f rd rest,
  (fold_right (fun kv acc => Datatypes.S (Ws.vsize (snd kv) + acc)) 0 (kv :: m) < f)%nat ->
  Forall (fun kv => Ws.depth (snd kv) < rd)%nat (kv :: m) ->
  parse_members f rd
    (join "," (map (fun kv => quote (fst kv) ++ ":" ++ to_string (snd kv)) (kv :: m))
     ++ String "}" rest) = Some (kv :: m, rest).
Proof.
  induction m as [|kv' m IH]; intros [k v] HF Hok f rd rest Hs Hd;
    inversion HF as [|? ? Hx HF']; subst; inversion Hd as [|? ? Hdx Hd']; subst;
    simpl in Hok; apply andb_true_iff in Hok as [Hokx Hok];
    destruct f as [|f]; simpl in Hs; try lia; simpl fst in *; simpl snd in *.
  - change (join "," (map (fun kv => quote (fst kv) ++ ":" ++ to_string (snd kv)) [(k, v)]))
      with (quote k ++ ":" ++ to_string v).
    rewrite (parse_member_text f rd k v (String "}" rest)).
    + reflexivity.
    + apply Hx; [exact Hokx | lia | exact Hdx | reflexivity].
  - change (join "," (map (fun kv => quote (fst kv) ++ ":" ++ to_string (snd kv)) ((k, v) :: kv' :: m)))
      with ((quote k ++ ":" ++ to_string v) ++ ","
            ++ join "," (map (fun kv => quote (fst kv) ++ ":" ++ to_string (snd kv)) (kv' :: m))).
    rewrite (str_app_assoc (quote k ++ ":" ++ to_string v)).
    rewrite (parse_member_text f rd k v).
    + rewrite str_app_assoc. change ("," ++ ?t) with (String ","%char t).
      rewrite skip_ws_nows by reflexivity. cbv beta iota.
      rewrite IH; [reflexivity | exact HF' | exact Hok | simpl in *; lia | exact Hd'].
    + rewrite str_app_assoc. apply Hx; [exact Hokx | lia | exact Hdx | reflexivity].
Qed.

Lemma join_cons_head : forall (x : string) xs t, exists t',
  join "," (x :: xs) ++ t = x ++ t'.
Proof.
  intros x [|y xs] t.
  - exists t. reflexivity.
  - exists ("," ++ join "," (y :: xs) ++ t).
    change (join "," (x :: y :: xs)) with (x ++ "," ++ join "," (y :: xs)).
    now rewrite !str_app_assoc.
Qed.

Lemma parse_value_dq : forall f rd r,
  parse_value (Datatypes.S f) rd (String dq r) =
  match parse_str r with Some (x, r') => Some (VStr x, r') | None => None end.
Proof. reflexivity. Qed.

Lemma parse_value_arr : forall f rd r,
  parse_value (Datatypes.S f) rd (String "[" r) =
  if Nat.eqb (Nat.pred rd) 0 then None
  else
    match skip_ws r with
    | String c' r' =>
        if Ascii.eqb c' "]"%char then Some (VArr [], r')
        else
          match parse_elems f (Nat.pred rd) r with
          | Some (l, r'') => Some (VArr l, r'')
          | None => None
          end
    | EmptyString => None
    end.
Proof. reflexivity. Qed.

Lemma parse_value_obj : forall f rd r,
  parse_value (Datatypes.S f) rd (String "{" r) =
  if Nat.eqb (Nat.pred rd) 0 then None
  else
    match skip_ws r with
    | String c' r' =>
        if Ascii.eqb c' "}"%char then Some (VObj [], r')
        else
          match parse_members f (Nat.pred rd) r with
          | Some (m, r'') => Some (VObj m, r'')
          | None => None
          end
    | EmptyString => None
    end.
Proof. reflexivity. Qed.

(** Every value with integers in range is read back from its text. *)
Lemma parse_print : forall v, Ws.int_only v = true -> prints_back v.
Proof.
  induction v as [| b | z | x | s | l IHl | m IHm] using value_ind';
    intros Hok fuel rd rest Hs Hd Hr; (destruct fuel as [|f]; [simpl in Hs; lia |]).
  - reflexivity.
  - destruct b; reflexivity.
  - change (to_string (VNum z)) with (print_Z z).
    destruct (print_Z_head z rest) as (c & r & E & Hc).
    rewrite E, parse_value_num_start by exact Hc. rewrite <- E.
    now apply parse_print_Z.
  - discriminate Hok.
  - change (to_string (VStr s) ++ rest)
      with (String dq ((escape s ++ String dq EmptyString) ++ rest)).
    rewrite str_app_assoc. change (String dq EmptyString ++ ?y) with (String dq y).
    rewrite parse_value_dq, parse_escape. reflexivity.
  - simpl in Hs, Hd. destruct rd as [|[|rd]]; try lia.
    change (to_string (VArr l) ++ rest)
      with (String "[" ((join "," (map to_string l) ++ "]") ++ rest)).
    rewrite str_app_assoc. change ("]" ++ rest) with (String "]" rest).
    rewrite parse_value_arr. cbv beta iota. simpl (Nat.eqb _ _). cbv beta iota.
    destruct l as [|x l]; [reflexivity |].
    destruct (join_cons_head (to_string x) (map to_string l) (String "]" rest)) as (t' & Et).
    destruct (to_string_head x t') as (c & s' & Ec & Hw & Hb).
    change (map to_string (x :: l)) with (to_string x :: map to_string l).
    rewrite Et, Ec, skip_ws_nows by exact Hw. rewrite Hb, <- Ec, <- Et.
    change (to_string x :: map to_string l) with (map to_string (x :: l)).
    rewrite parse_print_elems; [reflexivity | exact IHl | exact Hok | lia |].
    apply depth_elems. cbn [Nat.pred]. lia.
  - simpl in Hs, Hd. destruct rd as [|[|rd]]; try lia.
    change (to_string (VObj m) ++ rest)
      with (String "{" ((join "," (map (fun kv => quote (fst kv) ++ ":" ++ to_string (snd kv)) m)
                         ++ "}") ++ rest)).
    rewrite str_app_assoc. change ("}" ++ rest) with (String "}" rest).
    rewrite parse_value_obj. cbv beta iota. simpl (Nat.eqb _ _). cbv beta iota.
    destruct m as [|[k v] m]; [reflexivity |].
    destruct (join_cons_head (quote k ++ ":" ++ to_string v)
                (map (fun kv => quote (fst kv) ++ ":" ++ to_string (snd kv)) m)
                (String "}" rest)) as (t' & Et).
    change (map (fun kv => quote (fst kv) ++ ":" ++ to_string (snd kv)) ((k, v) :: m))
      with ((quote k ++ ":" ++ to_string v)
            :: map (fun kv => quote (fst kv) ++ ":" ++ to_string (snd kv)) m).
    rewrite Et.
    change ((quote k ++ ":" ++ to_string v) ++ t')
      with (String dq (((escape k ++ String dq EmptyString) ++ ":" ++ to_string v) ++ t')).
    rewrite skip_ws_nows by reflexivity. cbv beta iota.
    change (Ascii.eqb dq "}"%char) with false. cbv beta iota.
    change (String dq (((escape k ++ String dq EmptyString) ++ ":" ++ to_string v) ++ t'))
      with ((quote k ++ ":" ++ to_string v) ++ t').
    rewrite <- Et.
    change ((quote k ++ ":" ++ to_string v)
            :: map (fun kv => quote (fst kv) ++ ":" ++ to_string (snd kv)) m)
      with (map (fun kv => quote (fst kv) ++ ":" ++ to_string (snd kv)) ((k, v) :: m)).
    rewrite parse_print_members; [reflexivity | exact IHm | exact Hok | lia |].
    apply depth_members. cbn [Nat.pred]. lia.
Qed.

(* ----------------------------------------------------------------- *)
(** The text is long enough for the parser's fuel. *)

Lemma len_join : forall xs,
  (fold_right (fun s acc => Datatypes.S (String.length s + acc)) 0 xs
   <= Datatypes.S (String.length (join "," xs)))%nat.
Proof.
  induction xs as [|x xs IH]; [simpl; lia |].
  destruct xs as [|y xs]; [simpl; lia |].
  change (join "," (x :: y :: xs)) with (x ++ "," ++ join "," (y :: xs)).
  rewrite !str_length_app. cbn [fold_right] in *. change (String.length ",") with 1%nat.
  lia.
Qed.

Lemma vsize_le_length : forall v, (Ws.vsize v <= String.length (to_string v))%nat.
Proof.
  induction v as [| b | z | x | s | l IHl | m IHm] using value_ind'; try (simpl; lia).
  - change (to_string (VArr l)) with ("[" ++ join "," (map to_string l) ++ "]").
    rewrite !str_length_app. cbn [Ws.vsize].
    change (String.length "[") with 1%nat. change (String.length "]") with 1%nat.
    assert (H : (fold_right (fun x acc => Datatypes.S (Ws.vsize x + acc)) 0 l
                 <= fold_right (fun s acc => Datatypes.S (String.length s + acc)) 0
                      (map to_string l))%nat).
    { induction IHl as [|x l Hx _ IH]; simpl; lia. }
    pose proof (len_join (map to_string l)). lia.
  - change (to_string (VObj m))
      with ("{" ++ join "," (map (fun kv => quote (fst kv) ++ ":" ++ to_string (snd kv)) m)
            ++ "}").
    rewrite !str_length_app. cbn [Ws.vsize].
    change (String.length "{") with 1%nat. change (String.length "}") with 1%nat.
    assert (H : (fold_right (fun kv acc => Datatypes.S (Ws.vsize (snd kv) + acc)) 0 m
                 <= fold_right (fun s acc => Datatypes.S (String.length s + acc)) 0
                      (map (fun kv => quote (fst kv) ++ ":" ++ to_string (snd kv)) m))%nat).
    { induction IHm as [|[k v] m Hx _ IH]; [simpl; lia |].
      cbn [fold_right map fst snd] in *.
      assert (String.length (to_string v) <= String.length (quote k ++ ":" ++ to_string v))%nat
        by (rewrite !str_length_app; lia).
      lia. }
    pose proof (len_join (map (fun kv => quote (fst kv) ++ ":" ++ to_string (snd kv)) m)).
    lia.
Qed.

(* ----------------------------------------------------------------- *)
(** Rebuilding a sorted map with [Map::insert] gives it back. *)

Lemma str_ltb_irrefl : forall a, str_ltb a a = false.
Proof.
  induction a as [|c a IH]; simpl; [reflexivity |].
  rewrite N.ltb_irrefl, Ascii.eqb_refl. exact IH.
Qed.

Lemma str_ltb_asym : forall a b, str_ltb a b = true -> str_ltb b a = false.
Proof.
  induction a as [|c a IH]; intros [|d b] H; simpl in *; try discriminate; try reflexivity.
  destruct (N.ltb_spec (N_of_ascii c) (N_of_ascii d)) as [Hl | Hl].
  - destruct (N.ltb_spec (N_of_ascii d) (N_of_ascii c)); [lia |].
    destruct (Ascii.eqb_spec d c) as [-> | _]; [lia | reflexivity].
  - destruct (Ascii.eqb_spec c d) as [-> | _]; [| discriminate].
    rewrite N.ltb_irrefl, Ascii.eqb_refl. exact (IH b H).
Qed.

Lemma str_ltb_trans : forall a b c, str_ltb a b = true -> str_ltb b c = true -> str_ltb a c = true.
Proof.
  induction a as [|x a IH]; intros [|y b] [|z c] H1 H2; simpl in *; try discriminate; try reflexivity.
  destruct (N.ltb_spec (N_of_ascii x) (N_of_ascii y)) as [Hxy | Hxy];
  destruct (N.ltb_spec (N_of_ascii y) (N_of_ascii z)) as [Hyz | Hyz];
  destruct (N.ltb_spec (N_of_ascii x) (N_of_ascii z)) as [Hxz | Hxz]; try reflexivity.
  - lia.
  - destruct (Ascii.eqb_spec y z) as [<- | _]; [lia | discriminate].
  - destruct (Ascii.eqb_spec x y) as [<- | _]; [lia | discriminate].
  - destruct (Ascii.eqb_spec x y) as [<- | _]; [| discriminate].
    destruct (Ascii.eqb_spec x z) as [<- | _]; [| discriminate].
    exact (IH b c H1 H2).
Qed.

Lemma sorted_before : forall xs k ys,
  Ws.keys_sorted (xs ++ k :: ys)%list = true -> Forall (fun a => str_ltb a k = true) xs.
Proof.
  induction xs as [|a xs IH]; intros k ys H; constructor.
  - destruct xs as [|b xs].
    + simpl in H. apply andb_true_iff in H. apply H.
    + simpl in H. apply andb_true_iff in H as [Hab H].
      pose proof (IH k ys H) as Hb. inversion Hb; subst.
      eapply str_ltb_trans; eassumption.
  - apply (IH k ys). destruct xs as [|b xs]; simpl in *;
      [| apply andb_true_iff in H; apply H].
    destruct ys; [reflexivity |]. apply andb_true_iff in H. apply H.
Qed.

Lemma map_insert_end : forall k v acc,
  Forall (fun kv => str_ltb (fst kv) k = true) acc ->
  map_insert k v acc = (acc ++ [(k, v)])%list.
Proof.
  induction acc as [|[k' v'] acc IH]; intros H; [reflexivity |].
  inversion H as [|? ? Hk H']; subst. simpl in Hk |- *.
  destruct (String.eqb_spec k k') as [-> | _].
  - rewrite str_ltb_irrefl in Hk. discriminate.
  - rewrite (str_ltb_asym k' k Hk), IH by exact H'. reflexivity.
Qed.

Lemma insert_all_sorted : forall m acc,
  Ws.keys_sorted (map fst (acc ++ m)) = true -> insert_all m acc = (acc ++ m)%list.
Proof.
  induction m as [|[k x] m IH]; intros acc H; simpl.
  - now rewrite app_nil_r.
  - rewrite map_insert_end.
    + rewrite IH; [now rewrite <- app_assoc |]. now rewrite <- app_assoc.
    + rewrite map_app in H. simpl in H. apply sorted_before in H.
      apply Forall_map in H. exact H.
Qed.

Lemma value_of_content_id : forall v, Ws.keys_ok v = true -> value_of_content v = v.
Proof.
  induction v as [| b | z | x | s | l IHl | m IHm] using value_ind'; intros H; try reflexivity.
  - simpl in *. f_equal. induction IHl as [|x l Hx _ IH]; [reflexivity |].
    simpl in H. apply andb_true_iff in H as [H1 H2]. simpl. now rewrite Hx, IH.
  - simpl in H. apply andb_true_iff in H as [Hs H].
    simpl. f_equal.
    assert (E : map (fun kv => (fst kv, value_of_content (snd kv))) m = m).
    { clear Hs. induction IHm as [|[k x] m Hx _ IH]; [reflexivity |].
      simpl in H. apply andb_true_iff in H as [H1 H2]. simpl in *. now rewrite Hx, IH. }
    rewrite E. apply (insert_all_sorted m []). exact Hs.
Qed.

(* ----------------------------------------------------------------- *)
(** The derived [Deserialize] reads back what the derived [Serialize]
    wrote. *)

Lemma decode_serialize : forall e, Ws.event_wf e = true -> Ws.decode (VObj (Ws.serialize e)) = Ok e.
Proof.
  intros [t d | t mk | t | p | ev d] H; simpl; try reflexivity;
    simpl in H; unfold Ws.value_wf in H; apply andb_true_iff in H as [_ H];
    now rewrite value_of_content_id.
Qed.

(** Numbers in range and no float: integers only. *)
Lemma numbers_float_free_int_only : forall v,
  Ws.numbers_ok v = true -> Ws.float_free v = true -> Ws.int_only v = true.
Proof.
  induction v as [| b | z | x | s | l IHl | m IHm] using value_ind';
    intros Hn Hf; try reflexivity.
  - exact Hn.
  - discriminate Hf.
  - cbn [Ws.numbers_ok Ws.float_free Ws.int_only] in *.
    induction IHl as [| y l Hy _ IH]; [reflexivity |].
    cbn [forallb] in *. apply andb_true_iff in Hn as [Hn1 Hn2].
    apply andb_true_iff in Hf as [Hf1 Hf2]. rewrite (Hy Hn1 Hf1). exact (IH Hn2 Hf2).
  - cbn [Ws.numbers_ok Ws.float_free Ws.int_only] in *.
    induction IHm as [| [k y] m Hy _ IH]; [reflexivity |].
    cbn [forallb fst snd] in *. apply andb_true_iff in Hn as [Hn1 Hn2].
    apply andb_true_iff in Hf as [Hf1 Hf2]. rewrite (Hy Hn1 Hf1). exact (IH Hn2 Hf2).
Qed.

Lemma parse_json_print : forall v,
  Ws.int_only v = true -> (Ws.depth v < 128)%nat -> parse_json (to_string v) = Some v.
Proof.
  intros v Hi Hd. unfold parse_json.
  pose proof (parse_print v Hi (Datatypes.S (String.length (to_string v))) 128 EmptyString)
    as Hp.
  rewrite str_app_nil in Hp. rewrite Hp; [reflexivity | | exact Hd | reflexivity].
  pose proof (vsize_le_length v). lia.
Qed.

(** ** C8: WebSocket events survive the text round trip, up to serde_json's
    recursion limit, for integer data *)

(** The finite [f64] [7212539907354464 * 2^-47]. ryu writes it as
    [51.248178375505404], and serde_json's default parse reads that text as
    the neighbouring [f64] [7212539907354465 * 2^-47]. *)
Definition lossy_f64 : f64 := f64_of_bits 7212539907354464 (-47).

(** C8 (counterexample): two well-formed events that do not come back.
    First, a [Patch] whose [data] is 127 arrays nested in one another is
    serialized, but [serde_json::from_str] rejects the text: with the
    enclosing event object it nests 128 containers, one more than the
    recursion limit of 128 allows. Second, a [Patch] whose [data] is the
    finite float [lossy_f64] is written as [51.248178375505404] and read
    back as a different float. *)
Lemma C8_not_roundtripped :
  Ws.from_str (Ws.to_json_string (Ws.Patch "" (Ws.nested_array 126)))
  <> Ok (Ws.Patch "" (Ws.nested_array 126)) /\
  Ws.event_wf (Ws.Patch "" (VFloat lossy_f64)) = true /\
  Ws.to_json_string (Ws.Patch "" (VFloat lossy_f64))
  = "{" ++ quote "type" ++ ":" ++ quote "patch" ++ "," ++ quote "target" ++ ":"
    ++ quote EmptyString ++ "," ++ quote "data" ++ ":51.248178375505404}" /\
  Ws.from_str (Ws.to_json_string (Ws.Patch "" (VFloat lossy_f64)))
  <> Ok (Ws.Patch "" (VFloat lossy_f64)).
Proof.
  split; [vm_compute; discriminate |].
  split; [vm_compute; reflexivity |].
  split; [vm_compute; reflexivity |].
  intro H.
  apply (f_equal (fun r => match r with
                           | Ok (Ws.Patch _ (VFloat y)) => PrimFloat.eqb y lossy_f64
                           | _ => true
                           end)) in H.
  vm_compute in H. discriminate H.
Qed.

(** C8: every event whose [data] (for [Patch] and [Custom]) is a
    well-formed [serde_json::Value] holding no float, with integers in the
    [i64]/[u64] range and at most 126 levels of nested arrays and objects,
    is read back by [from_str] from its [to_string] text as the same
    variant with equal fields; this covers [Html], [Invalidate] and
    [Navigate] with any strings. *)
Theorem C8_roundtrip : forall e,
  Ws.event_wf e = true -> Ws.event_float_free e = true ->
  (Ws.event_data_depth e <= 126)%nat ->
  Ws.from_str (Ws.to_json_string e) = Ok e.
Proof.
  intros e Hwf Hff Hdep. unfold Ws.from_str, Ws.to_json_string.
  rewrite parse_json_print.
  - now apply decode_serialize.
  - destruct e; simpl in *; try reflexivity;
      unfold Ws.value_wf in Hwf; apply andb_true_iff in Hwf as [Hwf _];
      rewrite ?andb_true_r; apply numbers_float_free_int_only; assumption.
  - destruct e; simpl in *; lia.
Qed.

Lemma C8_roundtrip_witness :
  Ws.event_wf (Ws.Custom "tick" (VArr [VNum 7; Ws.nested_array 124])) = true /\
  Ws.event_float_free (Ws.Custom "tick" (VArr [VNum 7; Ws.nested_array 124])) = true /\
  (Ws.event_data_depth (Ws.Custom "tick" (VArr [VNum 7; Ws.nested_array 124])) <= 126)%nat /\
  Ws.from_str (Ws.to_json_string (Ws.Custom "tick" (VArr [VNum 7; Ws.nested_array 124])))
  = Ok (Ws.Custom "tick" (VArr [VNum 7; Ws.nested_array 124])).
Proof.
  split; [vm_compute; reflexivity |]. split; [vm_compute; reflexivity |].
  split; [vm_compute; lia |].
  apply C8_roundtrip; [vm_compute; reflexivity | vm_compute; reflexivity | vm_compute; lia].
Defined.

(* ================================================================= *)
(** ** Header maps: what [get_all] returns after the encoders *)

Lemma get_all_insert : forall k k' v h,
  header_get_all k (hm_insert k' v h) =
  if String.eqb k' k then [v] else header_get_all k h.
Proof.
  intros k k' v h. unfold header_get_all, hm_insert.
  rewrite filter_app, map_app. simpl.
  destruct (String.eqb k' k) eqn:E.
  - apply String.eqb_eq in E. subst k'.
    induction h as [| [a x] h IH]; simpl; [reflexivity |].
    destruct (String.eqb a k) eqn:Ea; simpl; [exact IH |].
    rewrite Ea. exact IH.
  - rewrite app_nil_r.
    induction h as [| [a x] h IH]; simpl; [reflexivity |].
    destruct (String.eqb a k) eqn:Ea; simpl.
    + apply String.eqb_eq in Ea. subst a. rewrite String.eqb_sym, E. simpl.
      rewrite String.eqb_refl. simpl. f_equal. exact IH.
    + destruct (negb (String.eqb a k')); simpl; [rewrite Ea |]; exact IH.
Qed.

Lemma get_all_append : forall k k' v h,
  header_get_all k (hm_append k' v h) =
  (header_get_all k h ++ if String.eqb k' k then [v] else [])%list.
Proof.
  intros k k' v h. unfold header_get_all, hm_append.
  rewrite filter_app, map_app. simpl. destruct (String.eqb k' k); reflexivity.
Qed.

Lemma header_get_app : forall k l1 l2,
  header_get k (l1 ++ l2)%list =
  match header_get k l1 with Some v => Some v | None => header_get k l2 end.
Proof.
  intros k l1 l2. induction l1 as [| [a x] l1 IH]; simpl; [reflexivity |].
  destruct (String.eqb a k); [reflexivity | exact IH].
Qed.

(** Copying the base headers with [insert] leaves, for each name, the last
    value the base holds under it, or what the response had. *)
Lemma get_all_copy_headers : forall k bh r,
  header_get_all k (resp_headers
    (fold_left (fun r kv => set_header (fst kv) (snd kv) r) bh r)) =
  match header_get k (rev bh) with
  | Some v => [v]
  | None => header_get_all k (resp_headers r)
  end.
Proof.
  intros k bh. induction bh as [| [a x] bh IH]; intro r; simpl; [reflexivity |].
  rewrite IH, header_get_app. simpl.
  destruct (header_get k (rev bh)); [reflexivity |].
  unfold set_header; simpl. rewrite get_all_insert.
  destruct (String.eqb a k); reflexivity.
Qed.

Lemma get_all_copy_cookies : forall k cs r,
  header_get_all k (resp_headers (fold_left
    (fun r c => let s := cookie_to_string c in
       if header_value_ok s then append_header "set-cookie" s r else r) cs r)) =
  (header_get_all k (resp_headers r) ++
   if String.eqb "set-cookie" k then valid_cookie_strings cs else [])%list.
Proof.
  intros k cs. induction cs as [| c cs IH]; intro r; cbn [fold_left].
  - unfold valid_cookie_strings; cbn [map filter].
    destruct (String.eqb "set-cookie" k); symmetry; apply app_nil_r.
  - unfold valid_cookie_strings in *. cbn [map filter].
    destruct (header_value_ok (cookie_to_string c)) eqn:Hc; rewrite IH; [| reflexivity].
    unfold append_header; cbn [resp_headers]. rewrite get_all_append, <- app_assoc.
    destruct (String.eqb "set-cookie" k); reflexivity.
Qed.

Lemma get_all_apply : forall k base r,
  header_get_all k (resp_headers (apply_to_response base r)) =
  (match header_get k (rev (b_headers base)) with
   | Some v => [v]
   | None => header_get_all k (resp_headers r)
   end ++ if String.eqb "set-cookie" k then valid_cookie_strings (b_cookies base) else [])%list.
Proof.
  intros k base r. unfold apply_to_response.
  rewrite get_all_copy_cookies, get_all_copy_headers. reflexivity.
Qed.

Lemma get_all_toast_cookies : forall k base r,
  header_get_all k (resp_headers (apply_toast_cookies base r)) =
  (header_get_all k (resp_headers r) ++
   match b_toasts base with
   | [] => []
   | ts => if String.eqb "set-cookie" k then [cookie_to_string (toast_cookie ts)] else []
   end)%list.
Proof.
  intros k base r. unfold apply_toast_cookies.
  destruct (b_toasts base) as [| t ts]; [symmetry; apply app_nil_r |].
  rewrite toast_cookie_header_ok. unfold append_header; cbn [resp_headers].
  apply get_all_append.
Qed.

Lemma header_get_rev_insert : forall k v h,
  header_get k (rev (hm_insert k v h)) = Some v.
Proof.
  intros k v h. unfold hm_insert. rewrite rev_app_distr. simpl.
  rewrite String.eqb_refl. reflexivity.
Qed.

Lemma base_insert_get : forall k v b,
  header_value_ok v = true ->
  header_get k (rev (b_headers (base_insert k v b))) = Some v.
Proof.
  intros k v b Hv. unfold base_insert. rewrite Hv. apply header_get_rev_insert.
Qed.

Lemma set_cookie_neq : forall k, k <> "set-cookie" -> String.eqb "set-cookie" k = false.
Proof.
  intros k Hk. apply String.eqb_neq. intro E. apply Hk. symmetry. exact E.
Qed.

(** For a name other than [set-cookie], the HTML, JSON and navigate
    responses carry exactly the base's value when the base has one. *)
Lemma html_get_all_base : forall k v d b,
  k <> "set-cookie" -> header_get k (rev (b_headers b)) = Some v ->
  header_get_all k (resp_headers (html_into_response (mkHtml d b))) = [v].
Proof.
  intros k v d b Hk Hg. unfold html_into_response; cbn [h_base h_data].
  rewrite get_all_toast_cookies, get_all_apply, Hg, (set_cookie_neq k Hk).
  destruct (b_toasts b); reflexivity.
Qed.

Lemma json_get_all_base : forall k v d x b,
  k <> "set-cookie" -> header_get k (rev (b_headers b)) = Some v ->
  to_value d = Some x ->
  header_get_all k (resp_headers (json_into_response (mkJson d b))) = [v].
Proof.
  intros k v d x b Hk Hg Hd. unfold json_into_response; cbn [j_base j_data]. rewrite Hd.
  rewrite get_all_apply, Hg, (set_cookie_neq k Hk). reflexivity.
Qed.

Lemma navigate_get_all_base : forall k v p b r,
  k <> "set-cookie" -> header_get k (rev (b_headers b)) = Some v ->
  navigate_into_response (mkNavigate p b) = Some r ->
  header_get_all k (resp_headers r) = [v].
Proof.
  intros k v p b r Hk Hg Hn. unfold navigate_into_response in Hn; cbn [n_base n_path] in Hn.
  destruct (header_value_ok p); [| discriminate]. injection Hn as <-.
  rewrite get_all_toast_cookies, get_all_apply, Hg, (set_cookie_neq k Hk).
  destruct (b_toasts b); reflexivity.
Qed.

Lemma base_insert_invalid : forall k v b, header_value_ok v = false -> base_insert k v b = b.
Proof. intros k v b Hv. unfold base_insert. rewrite Hv. reflexivity. Qed.

(** Two inserts under one stored name: the later value when it is valid,
    the earlier one otherwise. *)
Lemma base_insert_twice_html : forall k v1 v2 d b,
  k <> "set-cookie" -> header_value_ok v1 = true ->
  header_get_all k (resp_headers
    (html_into_response (mkHtml d (base_insert k v2 (base_insert k v1 b))))) =
  [if header_value_ok v2 then v2 else v1].
Proof.
  intros k v1 v2 d b Hk H1. destruct (header_value_ok v2) eqn:H2.
  - apply html_get_all_base; [exact Hk |]. apply base_insert_get, H2.
  - rewrite (base_insert_invalid k v2 _ H2).
    apply html_get_all_base; [exact Hk |]. apply base_insert_get, H1.
Qed.

(** With a valid value and a key [HdrName::from_static] accepts,
    [with_header] is the insert under the stored (lower-case) name. *)
Lemma with_header_some : forall k name v b,
  header_name_from_static k = Some name -> header_value_ok v = true ->
  with_header k v b = Some (base_insert name v b).
Proof.
  intros k name v b Hn Hv. unfold with_header, base_insert. rewrite Hv, Hn. reflexivity.
Qed.

(** X1: [with_header] with a valid value and a key that [HdrName::from_static]
    accepts stores the key's lower-case form [name]; when [name] is not
    [set-cookie], that name has exactly this one value in the final HTML
    response, in the final JSON response when the body serializes, and in
    the final redirect when the path is valid (this also replaces the
    encoders' own [content-type] or [location]). A key that
    [from_static] refuses makes [with_header] panic. *)
Theorem with_header_emitted : forall k v b,
  header_value_ok v = true ->
  match header_name_from_static k with
  | Some name =>
      name <> "set-cookie" ->
      exists b', with_header k v b = Some b' /\
      (forall d, header_get_all name (resp_headers
         (html_into_response (mkHtml d b'))) = [v]) /\
      (forall d x, to_value d = Some x -> header_get_all name (resp_headers
         (json_into_response (mkJson d b'))) = [v]) /\
      (forall p r, navigate_into_response (mkNavigate p b') = Some r ->
         header_get_all name (resp_headers r) = [v])
  | None => with_header k v b = None
  end.
Proof.
  intros k v b Hv. destruct (header_name_from_static k) as [name |] eqn:Hn.
  - intro Hk. exists (base_insert name v b).
    pose proof (base_insert_get name v b Hv) as Hg.
    split; [exact (with_header_some k name v b Hn Hv) |]. split; [| split].
    + intro d. exact (html_get_all_base name v d _ Hk Hg).
    + intros d x Hd. exact (json_get_all_base name v d x _ Hk Hg Hd).
    + intros p r Hn'. exact (navigate_get_all_base name v p _ r Hk Hg Hn').
  - unfold with_header. rewrite Hv, Hn. reflexivity.
Qed.

(** The key [X-Custom] is stored as [x-custom]; the key [a b] panics. *)
Lemma with_header_emitted_witness :
  header_name_from_static "X-Custom" = Some "x-custom" /\
  (exists b', with_header "X-Custom" "text/plain" base_default = Some b' /\
     header_get_all "x-custom" (resp_headers (html_into_response (mkHtml "<p>" b')))
     = ["text/plain"]) /\
  with_header "a b" "text/plain" base_default = None.
Proof.
  split; [vm_compute; reflexivity |]. split.
  - destruct (with_header_emitted "X-Custom" "text/plain" base_default eq_refl
                ltac:(vm_compute; discriminate)) as (b' & E & Hh & _).
    exists b'. split; [exact E | apply Hh].
  - exact (with_header_emitted "a b" "text/plain" base_default eq_refl).
Defined.

(** X2: each Silcrow directive ([retarget], [push_history],
    [invalidate_target], [client_navigate], [sse]) applied twice leaves in the
    final HTML response exactly one value for its header: the second
    argument when it is a valid header value, else the first (valid) one;
    [no_cache] succeeds and sets [silcrow-cache: no-cache]. *)
Theorem directives_last_valid_wins : forall d b s1 s2,
  header_value_ok s1 = true ->
  let last := if header_value_ok s2 then s2 else s1 in
  header_get_all "silcrow-retarget" (resp_headers
    (html_into_response (mkHtml d (retarget s2 (retarget s1 b))))) = [last] /\
  header_get_all "silcrow-push" (resp_headers
    (html_into_response (mkHtml d (push_history s2 (push_history s1 b))))) = [last] /\
  header_get_all "silcrow-invalidate" (resp_headers
    (html_into_response (mkHtml d (invalidate_target s2 (invalidate_target s1 b))))) = [last] /\
  header_get_all "silcrow-navigate" (resp_headers
    (html_into_response (mkHtml d (client_navigate s2 (client_navigate s1 b))))) = [last] /\
  header_get_all "silcrow-sse" (resp_headers
    (html_into_response (mkHtml d (sse s2 (sse s1 b))))) = [last] /\
  exists b', no_cache b = Some b' /\
  header_get_all "silcrow-cache" (resp_headers
    (html_into_response (mkHtml d b'))) = ["no-cache"].
Proof.
  intros d b s1 s2 H1 last.
  repeat split; try (apply base_insert_twice_html; [discriminate | exact H1]).
  exists (base_insert "silcrow-cache" "no-cache" b). split; [reflexivity |].
  apply html_get_all_base; [discriminate |]. apply base_insert_get. reflexivity.
Qed.

Lemma directives_last_valid_wins_witness :
  header_value_ok "#main" = true /\
  header_get_all "silcrow-retarget" (resp_headers
    (html_into_response (mkHtml ""
       (retarget (String "010"%char EmptyString) (retarget "#main" base_default)))))
  = ["#main"].
Proof.
  split; [reflexivity |].
  etransitivity;
    [exact (proj1 (directives_last_valid_wins "" base_default "#main"
                     (String "010"%char EmptyString) eq_refl)) | reflexivity].
Defined.

(* ================================================================= *)
(** ** The bytes of compact JSON text *)

Section PrintedBytes.
Variable f g : ascii -> bool.
(** The printer's fixed bytes: brackets, separators, quote, sign, digits
    and the letters of [null], [true] and [false]. *)
Hypothesis Hsyn : all_chars f "{}[],:-0123456789.nulltruefalse" = true.
Hypothesis Hdq : f dq = true.
Hypothesis Hesc : forall c, all_chars f (escape_char c) = g c.

Lemma syn_ok : forall c,
  existsb (Ascii.eqb c) (list_ascii_of_string "{}[],:-0123456789.nulltruefalse") = true ->
  f c = true.
Proof. intros c H. exact (all_chars_in f _ c Hsyn (existsb_in c _ H)). Qed.

Lemma escape_bytes : forall s, all_chars f (escape s) = all_chars g s.
Proof.
  induction s as [| c s IH]; [reflexivity |].
  simpl. rewrite all_chars_app, Hesc, IH. reflexivity.
Qed.

Lemma quote_bytes : forall s, all_chars f (quote s) = all_chars g s.
Proof.
  intro s. unfold quote. cbn [all_chars]. rewrite Hdq, all_chars_app, escape_bytes.
  cbn [all_chars]. rewrite Hdq. simpl. apply andb_true_r.
Qed.

Lemma uint_bytes : forall d, all_chars f (uint_to_string d) = true.
Proof.
  induction d; cbn [uint_to_string all_chars]; try reflexivity;
    rewrite syn_ok by reflexivity; exact IHd.
Qed.

Lemma print_Z_bytes : forall z, all_chars f (print_Z z) = true.
Proof.
  intro z. unfold print_Z. destruct (Z.to_int z); [apply uint_bytes |].
  cbn [all_chars]. rewrite syn_ok by reflexivity. apply uint_bytes.
Qed.

Lemma join_bytes : forall xs,
  all_chars f (join "," xs) = forallb (all_chars f) xs.
Proof.
  induction xs as [| x xs IH]; [reflexivity |].
  destruct xs as [| y xs].
  - simpl. rewrite andb_true_r. reflexivity.
  - change (join "," (x :: y :: xs)) with (x ++ String ","%char (join "," (y :: xs))).
    rewrite all_chars_app. cbn [all_chars]. rewrite syn_ok by reflexivity.
    rewrite IH. reflexivity.
Qed.

(** Every byte of the compact text of [v] satisfies [f] iff every byte of
    its strings and keys satisfies [g]. *)
Lemma to_string_bytes : forall v, all_chars f (to_string v) = value_strings_all g v.
Proof.
  induction v as [| b | z | x | s | l IH | m IH] using value_ind'.
  - cbn [to_string all_chars]. rewrite !syn_ok by reflexivity. reflexivity.
  - destruct b; cbn [to_string all_chars]; rewrite !syn_ok by reflexivity; reflexivity.
  - apply print_Z_bytes.
  - apply format_f64_chars. cbn [all_chars]. rewrite !syn_ok by reflexivity. reflexivity.
  - apply quote_bytes.
  - cbn [to_string]. rewrite all_chars_app. cbn [all_chars].
    rewrite syn_ok by reflexivity. rewrite all_chars_app, join_bytes. cbn [all_chars].
    rewrite syn_ok by reflexivity. rewrite !andb_true_r. simpl.
    induction IH as [| x l Hx _ IHl]; [reflexivity |].
    simpl. rewrite Hx, IHl. reflexivity.
  - assert (Hm : forall k x, all_chars f (quote k ++ ":" ++ to_string x) =
                             all_chars g k && all_chars f (to_string x)).
    { intros k x. rewrite !all_chars_app, quote_bytes. cbn [all_chars].
      rewrite syn_ok by reflexivity. reflexivity. }
    cbn [to_string]. rewrite all_chars_app. cbn [all_chars].
    rewrite syn_ok by reflexivity. rewrite all_chars_app, join_bytes. cbn [all_chars].
    rewrite syn_ok by reflexivity. rewrite !andb_true_r, andb_true_l.
    cbn [value_strings_all].
    induction IH as [| [k x] m Hx _ IHm]; [reflexivity |].
    cbn [map forallb fst snd] in *. rewrite Hm, Hx, IHm. reflexivity.
Qed.
End PrintedBytes.

Lemma escape_char_header : forall c,
  all_chars header_byte_ok (escape_char c) = no_del c.
Proof.
  intro c. apply Bool.eqb_prop. revert c.
  apply (ascii_by_cases (fun c => Bool.eqb (all_chars header_byte_ok (escape_char c)) (no_del c))).
  vm_compute. reflexivity.
Qed.

Lemma escape_char_line : forall c,
  all_chars not_line_break (escape_char c) = true.
Proof.
  apply (ascii_by_cases (fun c => all_chars not_line_break (escape_char c))).
  vm_compute. reflexivity.
Qed.

(** The compact text of a value is a valid header value iff no string or
    key in it holds a DEL byte. *)
Lemma to_string_header_ok : forall v,
  header_value_ok (to_string v) = value_strings_all no_del v.
Proof.
  apply to_string_bytes; [reflexivity | reflexivity | apply escape_char_header].
Qed.

Lemma value_strings_all_true : forall v, value_strings_all (fun _ => true) v = true.
Proof.
  induction v as [| b | z | x | s | l IH | m IH] using value_ind'; try reflexivity.
  - simpl. induction s; [reflexivity | exact IHs].
  - simpl. induction IH as [| x l Hx _ IHl]; [reflexivity |]. simpl. rewrite Hx. exact IHl.
  - simpl. induction IH as [| [k x] m Hx _ IHm]; [reflexivity |]. simpl.
    simpl in Hx. rewrite Hx, IHm. rewrite andb_true_r.
    induction k; [reflexivity | exact IHk].
Qed.

Lemma to_string_no_line_break : forall v, all_chars not_line_break (to_string v) = true.
Proof.
  intro v. rewrite (to_string_bytes not_line_break (fun _ => true)).
  - apply value_strings_all_true.
  - reflexivity.
  - reflexivity.
  - apply escape_char_line.
Qed.

(** [value_from_str] reads back the compact text of a well-formed value
    with no float, nested less than 128 levels deep. *)
Lemma value_from_str_print : forall v,
  Ws.value_wf v = true -> Ws.float_free v = true -> (Ws.depth v < 128)%nat ->
  value_from_str (to_string v) = Some v.
Proof.
  intros v Hwf Hf Hd. unfold Ws.value_wf in Hwf. apply andb_prop in Hwf as [Hi Hk].
  unfold value_from_str.
  rewrite parse_json_print by (try apply numbers_float_free_int_only; assumption). simpl.
  rewrite value_of_content_id by assumption. reflexivity.
Qed.

(* ================================================================= *)
(** ** Directives carrying JSON *)

(** X3: [trigger_event] sets [silcrow-trigger] iff the event name has no
    DEL byte; the final HTML response then carries exactly one value for it,
    which [serde_json::from_str] reads back as the object with the single
    member [event_name: {}]. Otherwise the response is left unchanged. *)
Theorem trigger_event_header : forall name d b,
  (all_chars no_del name = true ->
   exists s,
     header_get_all "silcrow-trigger"
       (resp_headers (html_into_response (mkHtml d (trigger_event name b)))) = [s] /\
     value_from_str s = Some (VObj [(name, VObj [])])) /\
  (all_chars no_del name = false -> trigger_event name b = b).
Proof.
  intros name d b.
  assert (Hm : map_insert name (VObj []) [] = [(name, VObj [])]) by reflexivity.
  assert (Hok : header_value_ok (to_string (VObj [(name, VObj [])])) = all_chars no_del name).
  { rewrite to_string_header_ok. simpl. rewrite !andb_true_r. reflexivity. }
  unfold trigger_event. rewrite Hm, Hok. split; intro Hn; rewrite Hn; [| reflexivity].
  exists (to_string (VObj [(name, VObj [])])). split.
  - apply html_get_all_base; [discriminate |]. cbn [b_headers].
    apply header_get_rev_insert.
  - apply value_from_str_print; [reflexivity | reflexivity | simpl; lia].
Qed.

(** X4: when the data serializes to a well-formed value with no float,
    nested at most 126 levels deep, and neither it nor the selector holds a
    DEL byte,
    [patch_target] does not panic and the final HTML response carries one
    [silcrow-patch] value, read back by [serde_json::from_str] as the object
    [{data, target}]. *)
Theorem patch_target_header : forall sel data v d b,
  to_value data = Some v -> Ws.value_wf v = true -> Ws.float_free v = true ->
  (Ws.depth v <= 126)%nat ->
  value_strings_all no_del v = true -> all_chars no_del sel = true ->
  exists b', patch_target sel data b = Some b' /\
    exists s,
      header_get_all "silcrow-patch"
        (resp_headers (html_into_response (mkHtml d b'))) = [s] /\
      value_from_str s = Some (VObj [("data", v); ("target", VStr sel)]).
Proof.
  intros sel data v d b Hd Hwf Hf Hdep Hv Hs.
  assert (Hm : map_insert "data" v (map_insert "target" (VStr sel) []) =
               [("data", v); ("target", VStr sel)]) by reflexivity.
  assert (Hok : header_value_ok (to_string (VObj [("data", v); ("target", VStr sel)])) = true).
  { rewrite to_string_header_ok. simpl. rewrite Hv, Hs. reflexivity. }
  unfold patch_target. rewrite Hd, Hm, Hok. eexists. split; [reflexivity |].
  exists (to_string (VObj [("data", v); ("target", VStr sel)])). split.
  - apply html_get_all_base; [discriminate |]. cbn [b_headers].
    apply header_get_rev_insert.
  - apply value_from_str_print.
    + unfold Ws.value_wf in *. apply andb_prop in Hwf as [Hi Hk].
      simpl. rewrite Hi, Hk. reflexivity.
    + simpl. rewrite Hf. reflexivity.
    + simpl. lia.
Qed.

Lemma patch_target_header_witness :
  exists b', patch_target "#list" (RSeq [RInt 1; RString "a"]) base_default = Some b' /\
    exists s,
      header_get_all "silcrow-patch"
        (resp_headers (html_into_response (mkHtml "" b'))) = [s] /\
      value_from_str s = Some (VObj [("data", VArr [VNum 1; VStr "a"]); ("target", VStr "#list")]).
Proof.
  apply (patch_target_header "#list" (RSeq [RInt 1; RString "a"]) (VArr [VNum 1; VStr "a"]));
    [reflexivity | reflexivity | reflexivity | simpl; lia | reflexivity | reflexivity].
Defined.

(* ================================================================= *)
(** ** Server-sent events *)

(** X9: the data line of a [SilcrowEvent::patch] whose data serializes to a
    well-formed value with no float, nested at most 126 levels deep, is read
    back by
    [serde_json::from_str] as [{data, target}], under the event name
    [patch]. *)
Theorem sse_patch_read_back : forall data v target,
  to_value data = Some v -> Ws.value_wf v = true -> Ws.float_free v = true ->
  (Ws.depth v <= 126)%nat ->
  event_name (silcrow_event_patch data target) = "patch" /\
  value_from_str (event_data (silcrow_event_patch data target)) =
    Some (VObj [("data", v); ("target", VStr target)]).
Proof.
  intros data v target Hd Hwf Hf Hdep. split; [reflexivity |].
  unfold event_data, event_payload, silcrow_event_patch. rewrite Hd.
  change (map_insert "data" v (map_insert "target" (VStr target) []))
    with [("data", v); ("target", VStr target)].
  apply value_from_str_print.
  - unfold Ws.value_wf in *. apply andb_prop in Hwf as [Hi Hk].
    simpl. rewrite Hi, Hk. reflexivity.
  - simpl. rewrite Hf. reflexivity.
  - simpl. lia.
Qed.

Lemma sse_patch_read_back_witness :
  event_name (silcrow_event_patch (RStruct [("n", RInt 3)]) "#c") = "patch" /\
  value_from_str (event_data (silcrow_event_patch (RStruct [("n", RInt 3)]) "#c")) =
    Some (VObj [("data", VObj [("n", VNum 3)]); ("target", VStr "#c")]).
Proof.
  apply (sse_patch_read_back (RStruct [("n", RInt 3)]) (VObj [("n", VNum 3)]) "#c");
    [reflexivity | reflexivity | reflexivity | simpl; lia].
Defined.

(** X10: the data line of [SilcrowEvent::html] is read back as
    [{html, target}] for any strings; a [SilcrowEvent::patch] whose data
    fails to serialize sends [{data: null, target}]. *)
Theorem sse_html_and_failed_patch : forall markup target data,
  value_from_str (event_data (silcrow_event_html markup target)) =
    Some (VObj [("html", VStr markup); ("target", VStr target)]) /\
  (to_value data = None ->
   value_from_str (event_data (silcrow_event_patch data target)) =
     Some (VObj [("data", VNull); ("target", VStr target)])).
Proof.
  intros markup target data. split.
  - apply value_from_str_print; [reflexivity | reflexivity | simpl; lia].
  - intro Hd. unfold event_data, event_payload, silcrow_event_patch. rewrite Hd.
    apply value_from_str_print; [reflexivity | reflexivity | simpl; lia].
Qed.

(** X11: the JSON text of every [SilcrowEvent] holds no line feed and no
    carriage return, whatever its strings contain, so it is sent as a
    single [data:] line. *)
Theorem sse_data_single_line : forall k, all_chars not_line_break (event_data k) = true.
Proof. intro k. apply to_string_no_line_break. Qed.

(* ================================================================= *)
(** ** headers.rs: the string headers *)

Lemma visible_header_ok : forall s,
  all_chars is_visible_ascii s = true -> header_value_ok s = true.
Proof.
  unfold header_value_ok. induction s as [| c s IH]; [reflexivity |].
  cbn [all_chars]. intro H. apply andb_prop in H as [Hc Hs]. rewrite IH by exact Hs.
  rewrite andb_true_r. revert c Hc.
  assert (A : forall c, implb (is_visible_ascii c) (header_byte_ok c) = true).
  { apply ascii_by_cases. vm_compute. reflexivity. }
  intros c Hc. specialize (A c). rewrite Hc in A. exact A.
Qed.

(** X5: a typed string header survives [encode] then [decode] iff the string
    is visible ASCII or tabs; a string with a byte of 128 or more is
    encoded but then rejected by [decode], and one with a control byte is
    not encoded at all. *)
Theorem string_header_roundtrip : forall s,
  string_header_decode (string_header_encode s) = Ok s <->
  all_chars is_visible_ascii s = true.
Proof.
  intro s. unfold string_header_encode. split.
  - destruct (header_value_ok s); simpl; [| discriminate].
    unfold header_to_str. destruct (all_chars is_visible_ascii s); [reflexivity | discriminate].
  - intro H. rewrite (visible_header_ok s H). simpl. unfold header_to_str. rewrite H.
    reflexivity.
Qed.

(* ================================================================= *)
(** ** The [set-cookie] values of the final responses *)

(** X6: the [set-cookie] values of a final HTML or redirect response are,
    in order: the base's own [set-cookie] header if it has one, the texts of
    the base's cookies that are valid header values, then the toast cookie
    when there is a toast. A JSON response whose body serializes has the
    same values without the toast cookie. *)
Theorem set_cookie_values : forall b,
  let base_sc := match header_get "set-cookie" (rev (b_headers b)) with
                 | Some v => [v] | None => [] end in
  let toast_sc := match b_toasts b with
                  | [] => [] | ts => [cookie_to_string (toast_cookie ts)] end in
  (forall d, header_get_all "set-cookie" (resp_headers (html_into_response (mkHtml d b))) =
             (base_sc ++ valid_cookie_strings (b_cookies b) ++ toast_sc)%list) /\
  (forall p r, navigate_into_response (mkNavigate p b) = Some r ->
     header_get_all "set-cookie" (resp_headers r) =
     (base_sc ++ valid_cookie_strings (b_cookies b) ++ toast_sc)%list) /\
  (forall d x, to_value d = Some x ->
     header_get_all "set-cookie" (resp_headers (json_into_response (mkJson d b))) =
     (base_sc ++ valid_cookie_strings (b_cookies b))%list).
Proof.
  intros b base_sc toast_sc. split; [| split].
  - intro d. unfold html_into_response. cbn [h_base h_data].
    rewrite get_all_toast_cookies, get_all_apply, String.eqb_refl, <- app_assoc.
    unfold base_sc, toast_sc. destruct (header_get "set-cookie" (rev (b_headers b)));
      destruct (b_toasts b); reflexivity.
  - intros p r Hn. unfold navigate_into_response in Hn. cbn [n_base n_path] in Hn.
    destruct (header_value_ok p); [| discriminate]. injection Hn as <-.
    rewrite get_all_toast_cookies, get_all_apply, String.eqb_refl, <- app_assoc.
    unfold base_sc, toast_sc. destruct (header_get "set-cookie" (rev (b_headers b)));
      destruct (b_toasts b); reflexivity.
  - intros d x Hd. unfold json_into_response. cbn [j_base j_data]. rewrite Hd.
    rewrite get_all_apply, String.eqb_refl.
    unfold base_sc. destruct (header_get "set-cookie" (rev (b_headers b))); reflexivity.
Qed.

(* ================================================================= *)
(** ** The toast cookie's JSON *)

Lemma toast_text : forall t,
  toast_to_string t =
  to_string (VObj [("message", VStr (message t)); ("level", VStr (level t))]).
Proof.
  intro t. unfold toast_to_string. cbn [to_string join map fst snd].
  rewrite !str_app_assoc. reflexivity.
Qed.

Lemma toasts_text : forall ts,
  toasts_to_string ts =
  to_string (VArr (map (fun t => VObj [("message", VStr (message t));
                                       ("level", VStr (level t))]) ts)).
Proof.
  intro ts. unfold toasts_to_string. cbn [to_string]. rewrite map_map.
  f_equal. f_equal. f_equal. apply map_ext. intro t. apply toast_text.
Qed.

(** X7: the JSON text of the toast list (the value of the [silcrow_toasts]
    cookie before URL encoding) is read back by the derived [Deserialize] as
    the same toasts, and as a [Value] it is exactly the [_toasts] array the
    JSON encoder attaches. *)
Theorem toasts_json_roundtrip : forall ts,
  toasts_from_str (toasts_to_string ts) = Ok ts /\
  value_from_str (toasts_to_string ts) = Some (toasts_value ts).
Proof.
  intro ts. rewrite toasts_text.
  set (raw := fun t => VObj [("message", VStr (message t)); ("level", VStr (level t))]).
  assert (Hi : Ws.int_only (VArr (map raw ts)) = true).
  { induction ts as [| t ts IH]; [reflexivity |]. exact IH. }
  assert (Hd : (Ws.depth (VArr (map raw ts)) < 128)%nat).
  { assert (A : (fold_right (fun x acc => Nat.max (Ws.depth x) acc) 0 (map raw ts) <= 1)%nat).
    { assert (Hr : forall t, Ws.depth (raw t) = 1%nat) by reflexivity.
      clear Hi. induction ts as [| t ts IH]; cbn [map fold_right]; [lia |]. rewrite Hr. lia. }
    cbn [Ws.depth]. lia. }
  split.
  - unfold toasts_from_str. rewrite parse_json_print by assumption.
    clear Hi Hd. induction ts as [| [m l] ts IH]; [reflexivity |].
    cbn [map toasts_of_raw].
    replace (toast_of_raw (raw {| message := m; level := l |}))
      with (Ok (E := DeError) (mkToast m l)) by reflexivity.
    rewrite IH. reflexivity.
  - unfold value_from_str. rewrite parse_json_print by assumption. simpl.
    unfold toasts_value. f_equal. f_equal. rewrite map_map.
    apply map_ext. intros [m l]. reflexivity.
Qed.

(* ================================================================= *)
(** ** ws.rs: a sent event is received *)

Lemma from_str_to_json_string : forall e,
  Ws.event_wf e = true -> Ws.event_float_free e = true ->
  (Ws.event_data_depth e <= 126)%nat ->
  Ws.from_str (Ws.to_json_string e) = Ok e.
Proof.
  intros e Hwf Hff Hdep. unfold Ws.from_str, Ws.to_json_string.
  rewrite parse_json_print.
  - apply decode_serialize, Hwf.
  - destruct e; cbn [Ws.serialize Ws.int_only forallb snd Ws.event_wf Ws.event_float_free] in *;
      try reflexivity; unfold Ws.value_wf in Hwf; apply andb_prop in Hwf as [Hi _];
      rewrite (numbers_float_free_int_only _ Hi Hff); reflexivity.
  - destruct e; cbn [Ws.serialize Ws.depth Ws.event_data_depth fold_right snd] in *; lia.
Qed.

(** X8: the frame [WsStream::send] writes for an event whose data is a
    well-formed value with no float, nested at most 126 levels deep, is
    returned by
    [WsStream::recv] on the other side as the same event, also behind any
    number of ping/pong frames, and the frames after it are left unread. *)
Theorem recv_after_send : forall e pre rest,
  Ws.event_wf e = true -> Ws.event_float_free e = true ->
  (Ws.event_data_depth e <= 126)%nat -> only_pings pre = true ->
  Ws.recv (pre ++ Ok (send_frame e) :: rest)%list = (Some (Ok e), rest).
Proof.
  intros e pre rest Hwf Hff Hdep. induction pre as [| x pre IH]; intro Hp.
  - cbn [app Ws.recv send_frame]. rewrite from_str_to_json_string by assumption.
    reflexivity.
  - cbn [only_pings forallb] in Hp. apply andb_prop in Hp as [Hx Hp].
    destruct x as [[s | s | s | s | f] | err]; try discriminate; cbn [app Ws.recv];
      apply IH, Hp.
Qed.

Lemma recv_after_send_witness :
  Ws.recv ([Ok (Ws.Ping "p")] ++ Ok (send_frame (Ws.Patch "#t" (VArr [VNum 2])))
            :: [Ok (Ws.Text "x")])%list
  = (Some (Ok (Ws.Patch "#t" (VArr [VNum 2]))), [Ok (Ws.Text "x")]).
Proof.
  apply recv_after_send; [reflexivity | reflexivity | simpl; lia | reflexivity].
Defined.

(* ================================================================= *)
(** ** macros.rs: [respond!] against [select] *)

(** X12: the two-arm forms of [respond!] (with or without a shared toast)
    give the response [select] gives with the same HTML and JSON responses
    registered as producers, and neither changes the world. *)
Theorem respond_matches_select : forall (W E : Type) req h j (w : W),
  (exists r, respond_both req h j = Ok r /\
     select req (responses_json (json_producer (fun w => (Ok j, w)))
                  (responses_html (html_producer (fun w => (Ok h, w)))
                     (@responses_new W E))) w = (Ok r, w)) /\
  (forall msg lvl, exists r, respond_both_toast req h j msg lvl = Ok r /\
     select req (responses_json
                   (json_producer (fun w => (Ok (mkJson (j_data j) (with_toast msg lvl (j_base j))), w)))
                   (responses_html
                      (html_producer (fun w => (Ok (mkHtml (h_data h) (with_toast msg lvl (h_base h))), w)))
                      (@responses_new W E))) w = (Ok r, w)).
Proof.
  intros W E req h j w. unfold respond_both, respond_both_toast, select.
  cbn [html_fn json_fn responses_json responses_html responses_new].
  unfold html_producer, json_producer.
  split; [| intros msg lvl]; destruct (preferred_mode req); eexists; split; reflexivity.
Qed.

(** X13: the one-arm forms of [respond!] do not go through [select]: when
    the mode lacks its arm they answer 406 with [HTML required] or
    [JSON required], where [select] with the same single producer answers
    406 with [JSON not provided] or [HTML not provided]. *)
Theorem respond_single_arm_406 : forall (W E : Type) req h j (w : W),
  (preferred_mode req = Json ->
   respond_html_only req h = Ok (status_text_response 406 "HTML required") /\
   select req (responses_html (html_producer (fun w => (Ok h, w))) (@responses_new W E)) w
   = (Ok (status_text_response 406 "JSON not provided"), w)) /\
  (preferred_mode req = Html ->
   respond_json_only req j = Ok (status_text_response 406 "JSON required") /\
   select req (responses_json (json_producer (fun w => (Ok j, w))) (@responses_new W E)) w
   = (Ok (status_text_response 406 "HTML not provided"), w)).
Proof.
  intros W E req h j w. unfold respond_html_only, respond_json_only, select.
  split; intro Hm; rewrite Hm; split; reflexivity.
Qed.

(* ================================================================= *)
(** ** The JSON body is read back *)

Lemma str_ltb_total : forall a b, a <> b -> str_ltb a b = false -> str_ltb b a = true.
Proof.
  induction a as [| x a IH]; intros [| y b] Hne H; simpl in *.
  - congruence.
  - discriminate.
  - reflexivity.
  - destruct (N.ltb_spec (N_of_ascii x) (N_of_ascii y)) as [Hxy | Hxy]; [discriminate |].
    destruct (N.ltb_spec (N_of_ascii y) (N_of_ascii x)) as [Hyx | Hyx]; [reflexivity |].
    assert (Hn : N_of_ascii x = N_of_ascii y) by lia.
    assert (Hc : x = y).
    { rewrite <- (ascii_N_embedding x), <- (ascii_N_embedding y), Hn. reflexivity. }
    subst y. rewrite Ascii.eqb_refl in *. apply IH; [congruence | exact H].
Qed.

Lemma map_insert_sorted : forall k x m,
  Ws.keys_sorted (map fst m) = true -> Ws.keys_sorted (map fst (map_insert k x m)) = true.
Proof.
  intros k x m. induction m as [| [k' v'] m IH]; intro Hs; [reflexivity |].
  cbn [map_insert]. destruct (String.eqb k k') eqn:E1.
  - apply String.eqb_eq in E1. subst k'. exact Hs.
  - destruct (str_ltb k k') eqn:E2.
    + cbn [map fst]. cbn [map fst] in Hs.
      change (Ws.keys_sorted (k :: k' :: map fst m))
        with (str_ltb k k' && Ws.keys_sorted (k' :: map fst m)).
      rewrite E2. exact Hs.
    + assert (Hlt : str_ltb k' k = true).
      { apply str_ltb_total; [| exact E2]. apply String.eqb_neq in E1. auto. }
      assert (Hm : Ws.keys_sorted (map fst m) = true).
      { destruct m as [| [? ?] ?]; [reflexivity |].
        cbn [map fst] in Hs. apply andb_prop in Hs. apply Hs. }
      specialize (IH Hm). cbn [map fst].
      destruct m as [| [k'' v''] m'].
      * simpl. rewrite Hlt. reflexivity.
      * cbn [map fst] in Hs. revert IH. cbn [map_insert].
        destruct (String.eqb k k'') eqn:E3; [| destruct (str_ltb k k'') eqn:E4];
          cbn [map fst]; intro IH;
          change (Ws.keys_sorted (k' :: ?h :: ?t))
            with (str_ltb k' h && Ws.keys_sorted (h :: t)); rewrite IH, andb_true_r.
        -- exact Hlt.
        -- exact Hlt.
        -- apply andb_prop in Hs. apply Hs.
Qed.

Lemma in_map_insert : forall k x m kv,
  In kv (map_insert k x m) -> kv = (k, x) \/ In kv m.
Proof.
  intros k x m kv. induction m as [| [k' v'] m IH]; cbn [map_insert].
  - intros [<- | []]. left. reflexivity.
  - destruct (String.eqb k k'); [| destruct (str_ltb k k')].
    + intros [<- | H]; [left; reflexivity | right; right; exact H].
    + intros [<- | H]; [left; reflexivity | right; exact H].
    + intros [<- | H]; [right; left; reflexivity |].
      destruct (IH H) as [E | H']; [left; exact E | right; right; exact H'].
Qed.

Lemma forallb_map_insert : forall (P : string * Value -> bool) k x m,
  P (k, x) = true -> forallb P m = true -> forallb P (map_insert k x m) = true.
Proof.
  intros P k x m Hx Hm. apply forallb_forall. intros kv Hin.
  destruct (in_map_insert k x m kv Hin) as [-> | H]; [exact Hx |].
  rewrite forallb_forall in Hm. apply Hm, H.
Qed.

Lemma fold_max_le : forall (l : list (string * Value)) n,
  (forall kv, In kv l -> (Ws.depth (snd kv) <= n)%nat) ->
  (fold_right (fun kv acc => Nat.max (Ws.depth (snd kv)) acc) 0 l <= n)%nat.
Proof.
  induction l as [| kv l IH]; intros n H; cbn [fold_right]; [lia |].
  apply Nat.max_lub; [apply H; left; reflexivity |].
  apply IH. intros kv' Hin. apply H. right. exact Hin.
Qed.

Lemma fold_max_ge : forall (l : list (string * Value)) kv, In kv l ->
  (Ws.depth (snd kv) <= fold_right (fun kv acc => Nat.max (Ws.depth (snd kv)) acc) 0 l)%nat.
Proof.
  induction l as [| kv' l IH]; intros kv Hin; [destruct Hin |].
  cbn [fold_right]. destruct Hin as [<- | Hin]; [lia |].
  specialize (IH kv Hin). lia.
Qed.

Lemma toasts_value_wf : forall ts,
  Ws.value_wf (toasts_value ts) = true /\ (Ws.depth (toasts_value ts) <= 2)%nat.
Proof.
  intro ts. unfold toasts_value. induction ts as [| t ts [IHw IHd]]; [split; [reflexivity | simpl; lia] |].
  unfold Ws.value_wf in *. apply andb_prop in IHw as [Hi Hk]. split.
  - cbn [map Ws.numbers_ok Ws.keys_ok forallb]. cbn [map Ws.numbers_ok Ws.keys_ok] in Hi, Hk.
    rewrite Hi, Hk. reflexivity.
  - cbn [map Ws.depth fold_right]. cbn [map Ws.depth] in IHd. simpl (Ws.depth (toast_value t)). lia.
Qed.

(** X14: when the data serializes to a well-formed value with no float,
    nested at most 126 levels deep, the body of the final JSON response is JSON text that
    [serde_json::from_str] reads back as the payload with the toasts
    attached: the value itself without toasts, otherwise the object with
    its [_toasts] member set (or [{data, _toasts}] for a non-object). *)
Theorem json_body_read_back : forall d v b,
  to_value d = Some v -> Ws.value_wf v = true -> Ws.float_free v = true ->
  (Ws.depth v <= 126)%nat ->
  value_from_str (body (json_into_response (mkJson d b))) = Some (attach_toasts (b_toasts b) v).
Proof.
  intros d v b Hd Hwf Hf Hdep. unfold json_into_response. cbn [j_data j_base]. rewrite Hd.
  rewrite (proj1 (apply_to_response_body _ _)). cbn [body].
  apply value_from_str_print.
  - destruct (b_toasts b) as [| t ts]; [exact Hwf |].
    destruct (toasts_value_wf (t :: ts)) as [Htw _].
    unfold Ws.value_wf in *. apply andb_prop in Hwf as [Hi Hk].
    apply andb_prop in Htw as [Hti Htk].
    destruct v as [| | | | | | m]; cbn [attach_toasts]; cbn [Ws.int_only Ws.keys_ok];
      try (cbn [Ws.int_only Ws.keys_ok] in Hi, Hk; apply andb_prop in Hk as [Hs Hkm]);
      (apply andb_true_intro; split; [| apply andb_true_intro; split]);
      repeat first [ apply map_insert_sorted | apply forallb_map_insert
                   | assumption | reflexivity ].
  - destruct (b_toasts b) as [| t ts]; [exact Hf |].
    assert (Htf : Ws.float_free (toasts_value (t :: ts)) = true).
    { unfold toasts_value. clear. induction (t :: ts) as [| t' l IH]; [reflexivity |].
      exact IH. }
    destruct v as [| | | | | | m]; cbn [attach_toasts Ws.float_free];
      repeat first [ apply forallb_map_insert | assumption | reflexivity ].
  - destruct (b_toasts b) as [| t ts]; [cbn [attach_toasts]; lia |].
    destruct (toasts_value_wf (t :: ts)) as [_ Htd].
    assert (Hins : forall m,
      (fold_right (fun kv acc => Nat.max (Ws.depth (snd kv)) acc) 0 m <= 126)%nat ->
      (Ws.depth (VObj (map_insert "_toasts" (toasts_value (t :: ts)) m)) < 128)%nat).
    { intros m Hm. cbn [Ws.depth].
      assert (fold_right (fun kv acc => Nat.max (Ws.depth (snd kv)) acc) 0
                (map_insert "_toasts" (toasts_value (t :: ts)) m) <= 126)%nat; [| lia].
      apply fold_max_le. intros kv Hin.
      destruct (in_map_insert _ _ _ _ Hin) as [-> | H]; [cbn [snd]; lia |].
      pose proof (fold_max_ge m kv H). lia. }
    destruct v as [| | | | | | m]; cbn [attach_toasts]; apply Hins;
      [.. | cbn [Ws.depth] in Hdep; lia].
    all: apply fold_max_le; intros kv Hin;
      destruct (in_map_insert _ _ _ _ Hin) as [-> | []]; cbn [snd]; lia.
Qed.

Lemma json_body_read_back_witness :
  value_from_str (body (json_into_response
    (mkJson (RStruct [("id", RInt 7)]) (with_toast "Saved" "ok" base_default)))) =
  Some (attach_toasts [mkToast "Saved" "ok"] (VObj [("id", VNum 7)])).
Proof.
  apply (json_body_read_back (RStruct [("id", RInt 7)]) (VObj [("id", VNum 7)]));
    [reflexivity | reflexivity | reflexivity | simpl; lia].
Defined.
